(** * cookbooker: acquisition and ordering core

    A shallow embedding of [cookbooker.py] (URL templating, retrying
    fetcher, filetype sniffer, download coordinator, page store) and the
    properties of its specification.

    Python values are modelled as follows.
    - [str]: [string]; a character is a code point below 256, which covers
      every URL, file name and hex dump the program builds itself.
    - [bytes]: [list byte].
    - [int]: [Z].
    - an exception that leaves a function: [Raised e] in [outcome]. *)

From stdpp Require Import base option list list_numbers sorting gmap strings.
From Stdlib Require Import ZArith Ascii String Strings.Byte DecimalString DecimalZ Lia.

Local Open Scope string_scope.
Local Open Scope list_scope.
Local Open Scope Z_scope.

(** ** Python builtins used by the program *)

Module Py.

Abbreviation bytes := (list byte).

Global Instance byte_eq_dec : EqDecision byte := Byte.byte_eq_dec.

Inductive exn : Type :=
| TypeError
| ValueError
| FileNotFoundError
| HTTPError (code : Z)
| URLError.

Inductive outcome (A : Type) : Type :=
| Returned (a : A)
| Raised (e : exn).
Global Arguments Returned {A} a.
Global Arguments Raised {A} e.

(** [s[:n]] and [s[n:]] for [n >= 0]. *)
Fixpoint str_take (n : nat) (s : string) : string :=
  match n, s with
  | S n', String c s' => String c (str_take n' s')
  | _, _ => ""
  end.

Fixpoint str_drop (n : nat) (s : string) : string :=
  match n, s with
  | S n', String _ s' => str_drop n' s'
  | _, _ => s
  end.

Definition in_range (lo hi : N) (c : ascii) : bool :=
  ((lo <=? N_of_ascii c) && (N_of_ascii c <=? hi))%N.

Definition is_digit (c : ascii) : bool := in_range 48 57 c.

(** [str.upper] on the ASCII letters, the only cased characters that a
    hex dump contains. *)
Definition upper_char (c : ascii) : ascii :=
  if in_range 97 122 c then ascii_of_N (N_of_ascii c - 32) else c.

Fixpoint upper (s : string) : string :=
  match s with
  | "" => ""
  | String c s' => String (upper_char c) (upper s')
  end.

(** [bytes.hex]: two lower-case digits per byte. *)
Definition hexdigit (n : N) : ascii :=
  if (n <? 10)%N then ascii_of_N (48 + n) else ascii_of_N (87 + n).

Fixpoint hex (bs : bytes) : string :=
  match bs with
  | [] => ""
  | b :: bs' =>
      String (hexdigit (Byte.to_N b / 16))
        (String (hexdigit (Byte.to_N b mod 16)) (hex bs'))
  end.

(** [str(i)] for an [int]. *)
Definition str (i : Z) : string := NilZero.string_of_int (Z.to_int i).

(** [range(a, b)]. *)
Definition range (a b : Z) : list Z := seqZ a (b - a).

(** [int(s)] in base 10: surrounding whitespace is stripped, an optional
    sign follows, then decimal digits in which single underscores may
    separate digits. [None] stands for the [ValueError]. The whitespace
    of a string of code points below 256 is tab to carriage return,
    space, U+0085 and U+00A0. The limit that CPython 3.11 puts on the
    number of digits (4300) is not part of this definition: it agrees
    with [int] on every string of at most 4300 characters. *)
Definition is_space (c : ascii) : bool :=
  in_range 9 13 c || in_range 32 32 c || in_range 133 133 c
  || in_range 160 160 c.

Fixpoint lstrip (s : string) : string :=
  match s with
  | String c s' => if is_space c then lstrip s' else s
  | "" => ""
  end.

Fixpoint rstrip (s : string) : string :=
  match s with
  | "" => ""
  | String c s' =>
      match rstrip s' with
      | "" => if is_space c then "" else String c ""
      | t => String c t
      end
  end.

Definition strip (s : string) : string := rstrip (lstrip s).

Fixpoint int_digits (prev : ascii) (s : string) : option string :=
  match s with
  | "" => if Ascii.eqb prev "_" then None else Some ""
  | String c s' =>
      if is_digit c then String c <$> int_digits c s'
      else if Ascii.eqb c "_" then
        (if is_digit prev then int_digits c s' else None)
      else None
  end.

Definition int_unsigned (s : string) : option Z :=
  ds ← int_digits "+" s;
  d ← NilZero.uint_of_string ds;
  Some (Z.of_uint d).

Definition int (s : string) : option Z :=
  match strip s with
  | "" => None
  | String c t =>
      if Ascii.eqb c "-" then Z.opp <$> int_unsigned t
      else if Ascii.eqb c "+" then int_unsigned t
      else int_unsigned (String c t)
  end.

(** Strings of decimal digits, and strings that contain a character. *)
Fixpoint all_digits (s : string) : bool :=
  match s with
  | "" => true
  | String c s' => is_digit c && all_digits s'
  end.

Fixpoint has_char (sep : ascii) (s : string) : bool :=
  match s with
  | "" => false
  | String c s' => Ascii.eqb c sep || has_char sep s'
  end.

(** [s.split(sep)] for a one-character separator: never empty. *)
Fixpoint split (sep : ascii) (s : string) : list string :=
  match s with
  | "" => [""]
  | String c s' =>
      if Ascii.eqb c sep then "" :: split sep s'
      else match split sep s' with
           | h :: t => String c h :: t
           | [] => [String c ""]
           end
  end.

(** [needle in s]. *)
Fixpoint contains (needle s : string) : bool :=
  String.prefix needle s
  || match s with
     | "" => false
     | String _ s' => contains needle s'
     end.

(** [os.path.join(a, b)] on a POSIX system. *)
Definition ends_with_slash (a : string) : bool :=
  match String.rev a with
  | String "/" _ => true
  | _ => false
  end.

Definition join (a b : string) : string :=
  if String.prefix "/" b then b
  else if String.eqb a "" || ends_with_slash a then a +:+ b
  else a +:+ "/" +:+ b.

(** [sorted(xs, key=...)] once the keys are known: a stable sort. *)
Fixpoint insert_by_key {A} (x : Z * A) (l : list (Z * A)) : list (Z * A) :=
  match l with
  | [] => [x]
  | y :: l' =>
      if y.1 <? x.1 then y :: insert_by_key x l' else x :: y :: l'
  end.

Fixpoint sort_by_key {A} (l : list (Z * A)) : list (Z * A) :=
  match l with
  | [] => []
  | x :: l' => insert_by_key x (sort_by_key l')
  end.

(** What the program does to the outside world. *)
Inductive event : Type :=
| Print (msg : string)
| Urlopen (url : string)
| PrintFetching (url : string)
| PrintEncountered (code i page sleep_time : Z)
| Sleep (sleep_time : Z)
| Warn (page_number : Z) (starting_bytes : string)
| WriteFile (path : string)
| Rmtree (path : string)
| Mkdir (path : string)
| Img2pdf (image_files : list string) (pdf : string)
| Ocrmypdf (input_file output_file : string).

End Py.

(** ** Filetype sniffer *)

Module Sniffer.
Import Py.

(** The dictionary of [determine_filetype], in insertion order. *)
Definition sigs : list (string * list string) :=
  [ (".gif", ["474946383761"; "474946383961"]);
    (".png", ["89504E470D0A1A0A"]);
    (".jpg", ["FFD8FFDB"; "FFD8FFE000104A4649460001"]) ].

(** The test [sig == starting_bytes[: len(sig)].upper()]. *)
Definition sig_matches (sig starting_bytes : string) : bool :=
  String.eqb sig (upper (str_take (String.length sig) starting_bytes)).

Fixpoint first_ext (items : list (string * list string))
    (starting_bytes : string) : string :=
  match items with
  | [] => ""
  | (ext, ss) :: rest =>
      if existsb (λ sig, sig_matches sig starting_bytes) ss then ext
      else first_ext rest starting_bytes
  end.

Definition determine_filetype (starting_bytes : string) : string :=
  first_ext sigs starting_bytes.

(** [determine_filetype(image[:16].hex())], as [download_images] calls it. *)
Definition sniff (image : bytes) : string :=
  determine_filetype (hex (take 16 image)).

(** The specification's reading: content types, the signature table as
    byte strings in the listed order, and first match on the payload's
    leading bytes. *)
Inductive content_type : Type := gif | png | jpg | unknown.

Definition signature_table : list (content_type * bytes) :=
  [ (gif, [x47; x49; x46; x38; x37; x61]);
    (gif, [x47; x49; x46; x38; x39; x61]);
    (png, [x89; x50; x4e; x47; x0d; x0a; x1a; x0a]);
    (jpg, [xff; xd8; xff; xdb]);
    (jpg, [xff; xd8; xff; xe0; x00; x10; x4a; x46; x49; x46; x00; x01]) ].

Definition leading_bytes_match (payload signature : bytes) : bool :=
  bool_decide (take (List.length signature) payload = signature).

Fixpoint first_match (table : list (content_type * bytes))
    (payload : bytes) : content_type :=
  match table with
  | [] => unknown
  | (ct, signature) :: rest =>
      if leading_bytes_match payload signature then ct
      else first_match rest payload
  end.

Definition sniff_spec (payload : bytes) : content_type :=
  first_match signature_table payload.

Definition extension (ct : content_type) : string :=
  match ct with
  | gif => ".gif"
  | png => ".png"
  | jpg => ".jpg"
  | unknown => ""
  end.

End Sniffer.

(** ** URL templater *)

Module Templater.
Import Py.

Inductive Site : Type := BABLE.

(** The [site] argument: [download_images] annotates it [Site],
    [get_url_replacements] annotates it [str]. *)
Inductive site_value : Type :=
| OfSite (s : Site)
| OfStr (s : string).

(** The one pattern the program compiles. *)
Inductive pattern : Type := SeqDigits.

Fixpoint count_digits (s : string) : nat :=
  match s with
  | String c s' => if is_digit c then S (count_digits s') else O
  | "" => O
  end.

(** Length of the match of [seq=\d+] that starts at the head of [s]; the
    match is greedy, and among the code points below 256 the class [\d]
    holds the digits 0 to 9 only. *)
Definition match_at (p : pattern) (s : string) : option nat :=
  match p, s with
  | SeqDigits, String "s" (String "e" (String "q" (String "=" rest))) =>
      match count_digits rest with
      | O => None
      | S k => Some (5 + k)%nat
      end
  | _, _ => None
  end.

(** [expression.sub(repl, s)] for a [repl] without backslashes: the
    scan goes left to right; [skip] counts the characters of the
    current match that are still to be consumed. *)
Fixpoint sub_go (p : pattern) (repl : string) (skip : nat) (s : string)
    : string :=
  match s with
  | "" => ""
  | String c s' =>
      match skip with
      | S k => sub_go p repl k s'
      | O =>
          match match_at p s with
          | Some (S k) => repl +:+ sub_go p repl k s'
          | _ => String c (sub_go p repl 0 s')
          end
      end
  end.

Definition sub (p : pattern) (repl s : string) : string :=
  sub_go p repl 0 s.

Definition get_url_replacements (base_url : string) (site : site_value)
    : option (pattern * string) :=
  match site with
  | OfSite BABLE => Some (SeqDigits, "seq=")
  | _ => None
  end.

(** The list [url_info] built by the loop of [download_images]. *)
Definition url_info (expression : pattern) (replacement base_url : string)
    (npages : Z) : list (Z * string) :=
  (λ i, (i, sub expression (replacement +:+ str i) base_url))
    <$> range 1 (npages + 1).

(** The templating part of [download_images]: the lookup of the
    site's pattern and the loop that fills [url_info]. [None] is the
    [None] that [get_url_replacements] falls through to. *)
Definition derive_work_items (base_url : string) (npages : Z)
    (site : site_value) : option (list (Z * string)) :=
  '(expression, replacement) ← get_url_replacements base_url site;
  Some (url_info expression replacement base_url npages).

(** The specification's reading: only the first occurrence of the token
    is replaced. *)
Fixpoint sub_first (p : pattern) (repl s : string) : string :=
  match s with
  | "" => ""
  | String c s' =>
      match match_at p s with
      | Some n => repl +:+ str_drop n s
      | None => String c (sub_first p repl s')
      end
  end.

(** [tok] is the leftmost occurrence of the pattern in [pre ++ tok ++ post]. *)
Definition first_occurrence (p : pattern) (s pre tok post : string) : Prop :=
  s = pre +:+ tok +:+ post
  ∧ match_at p (tok +:+ post) = Some (String.length tok)
  ∧ ∀ k, (k < String.length pre)%nat → match_at p (str_drop k s) = None.

Definition no_occurrence (p : pattern) (s : string) : Prop :=
  ∀ k, match_at p (str_drop k s) = None.

(** Whether the pattern matches somewhere in [s], as [expression.search]
    would tell. *)
Fixpoint has_token (p : pattern) (s : string) : bool :=
  match s with
  | "" => false
  | String _ s' =>
      match match_at p s with
      | Some _ => true
      | None => has_token p s'
      end
  end.

Definition starts_with_digit (s : string) : bool :=
  match s with
  | String c _ => is_digit c
  | "" => false
  end.

End Templater.

(** ** Retrying fetcher *)

Module Fetcher.
Import Py.

(** What one [urlopen] plus [read] does: it yields the body, raises
    [HTTPError], or raises something else. *)
Inductive attempt : Type :=
| Body (b : bytes)
| HTTPFailure (code : Z)
| OtherFailure (e : exn).

(** [random.randint(a, b)] from a raw random number [r]: an integer [N]
    with [a <= N <= b]. *)
Definition randint (a b r : Z) : Z := a + r mod (b - a + 1).

(** The body of [for i in range(10)]; [net i] is what attempt [i] meets
    on the network and [rnd i] the random number drawn after it. Falling
    off the end of the loop returns [None]. *)
Fixpoint fetch_loop (attempts : list Z) (page : Z) (url : string)
    (net : Z → attempt) (rnd : Z → Z)
    : list event * outcome (option (Z * bytes)) :=
  match attempts with
  | [] => ([], Returned None)
  | i :: rest =>
      match net i with
      | Body b =>
          ([Urlopen url; PrintFetching url], Returned (Some (page, b)))
      | HTTPFailure code =>
          let sleep_time := randint 0 (2 ^ i - 1) (rnd i) in
          let '(log, r) := fetch_loop rest page url net rnd in
          (Urlopen url :: PrintEncountered code i page sleep_time
             :: Sleep sleep_time :: log, r)
      | OtherFailure e => ([Urlopen url], Raised e)
      end
  end.

Definition fetch_image (url_info : Z * string) (net : Z → attempt)
    (rnd : Z → Z) : list event * outcome (option (Z * bytes)) :=
  fetch_loop (range 0 10) url_info.1 url_info.2 net rnd.

(** The attempts made and the back-off sleeps taken, read off the log. *)
Definition is_urlopen (e : event) : bool :=
  match e with
  | Urlopen _ => true
  | _ => false
  end.

Definition attempts_made (log : list event) : nat :=
  List.length (List.filter is_urlopen log).

Definition sleeps (log : list event) : list (Z * Z) :=
  omap (λ e, match e with
             | PrintEncountered _ i _ t => Some (i, t)
             | _ => None
             end) log.

(** The arguments of the calls of [sleep], in the order of the calls. *)
Definition sleep_events (log : list event) : list Z :=
  omap (λ e, match e with
             | Sleep t => Some t
             | _ => None
             end) log.

(** The time spent in [sleep] over a log. *)
Fixpoint slept (log : list event) : Z :=
  match log with
  | [] => 0
  | Sleep t :: log' => t + slept log'
  | _ :: log' => slept log'
  end.

End Fetcher.

(** ** Page store *)

Module PageStore.
Import Py.

Definition image_types : list string := ["jpg"; "png"; "gif"].

Definition is_image (filename : string) : bool :=
  bool_decide (List.last (split "." filename) "" ∈ image_types).

(** The sort key [int(x.split(".")[0])]. *)
Definition sort_key (x : string) : option Z :=
  int (List.hd "" (split "." x)).

(** [find_images] on the listing that [listdir] returned. The keys of all
    kept names are computed before anything is ordered. *)
Definition find_images (directory : string) (listing : list string)
    : outcome (list string) :=
  let images := filter (λ x, is_image x = true) listing in
  match mapM (λ x, (λ k, (k, x)) <$> sort_key x) images with
  | None => Raised ValueError
  | Some keyed => Returned (join directory <$> (sort_by_key keyed).*2)
  end.

(** The name under which the coordinator stores a page: the index
    followed by the extension, which is empty for an unknown type. *)
Definition page_file_name (p : Z * string) : string := str p.1 +:+ p.2.

Definition stored_extensions : list string := [".gif"; ".png"; ".jpg"; ""].

(** The specification's reading of the two file-name components. *)
Definition extension_of (filename : string) : string :=
  match List.rev (split "." filename) with
  | e :: _ :: _ => e
  | _ => ""
  end.

Definition before_extension (filename : string) : string :=
  match List.rev (split "." filename) with
  | e :: _ :: _ =>
      str_take (String.length filename - String.length e - 1) filename
  | _ => filename
  end.

End PageStore.

(** ** Concurrent download coordinator *)

Module Coordinator.
Import Py Templater Fetcher.

(** The target directory as a map from path to content, and the log. *)
Record state : Type := State {
  files : gmap string bytes;
  log : list event
}.

(** The body of [for image_data in pool.imap_unordered(...)], over the
    results in the order in which they complete. A worker's exception is
    raised again by the iterator; [image_data[0]] on [None] is a
    [TypeError]. *)
Fixpoint consume (directory : string)
    (results : list (list event * outcome (option (Z * bytes))))
    (st : state) : state * outcome unit :=
  match results with
  | [] => (st, Returned ())
  | (fetch_log, r) :: rest =>
      let st := State (files st) (log st ++ fetch_log) in
      match r with
      | Raised e => (st, Raised e)
      | Returned None => (st, Raised TypeError)
      | Returned (Some (page_number, image)) =>
          let starting_bytes := hex (take 16 image) in
          let image_type := Sniffer.determine_filetype starting_bytes in
          let warned :=
            if String.eqb image_type "" then [Warn page_number starting_bytes]
            else [] in
          let image_file :=
            join directory (PageStore.page_file_name (page_number, image_type)) in
          consume directory rest
            (State (<[image_file := image]> (files st))
                   (log st ++ warned ++ [WriteFile image_file]))
      end
  end.

(** [download_images]. [net page] and [rnd page] are the network and the
    random source as the fetch of [page] meets them; [completion] is the
    order in which the pool hands the results back. *)
Definition download_images (base_url : string) (npages : Z)
    (directory : string) (site : site_value)
    (net : Z → Z → attempt) (rnd : Z → Z → Z)
    (completion : list (Z * string) → list (Z * string))
    (st : state) : state * outcome unit :=
  match derive_work_items base_url npages site with
  | None => (st, Raised TypeError)
  | Some url_info =>
      consume directory
        ((λ w, fetch_image w (net w.1) (rnd w.1)) <$> completion url_info)
        st
  end.

(** The path at which the loop stores a fetched page. *)
Definition stored_path (directory : string) (page_image : Z * bytes) : string :=
  join directory
    (PageStore.page_file_name (page_image.1, Sniffer.sniff page_image.2)).

End Coordinator.

(** ** The command-line driver *)

Module Main.
Import Py Templater Fetcher Coordinator PageStore.

(** The parsed arguments. *)
Record Namespace : Type := {
  url : string;
  pages : Z;
  author : string;
  title : string;
  download : bool;
  pdf : bool;
  ocr : bool;
  interactive : bool
}.

(** What the run depends on outside the program: the working directory,
    what the user types at the n-th interactive prompt session, the
    network, the random source, the pool's completion order and the
    order in which [listdir] lists names of a directory. *)
Record env : Type := {
  here : string;
  interactive_parsing : nat → Namespace → Namespace;
  net : Z → Z → attempt;
  rnd : Z → Z → Z;
  completion : list (Z * string) → list (Z * string);
  listdir : gmap string bytes → list string
}.

(** The image directory ([None] when it does not exist), whether the
    PDF directory exists, and the log. *)
Record world : Type := World {
  img_files : option (gmap string bytes);
  pdf_dir : bool;
  out : list event
}.

Definition emit (es : list event) (w : world) : world :=
  World (img_files w) (pdf_dir w) (out w ++ es).

Definition missing (args : Namespace) : bool :=
  String.eqb (url args) "" || (pages args =? 0).

(** The prompting at the head of [main]: [None] is the early [return]. *)
Definition resolve_arguments (E : env) (args : Namespace) (w : world)
    : world * option Namespace :=
  let args := if interactive args then interactive_parsing E 0 args else args in
  if missing args && download args then
    let w := emit [Print "URL and Pages required for downloading, entering interactive parsing."] w in
    let args := interactive_parsing E 1 args in
    if missing args then
      (emit [Print "Still missing URL or Pages, exiting..."] w, None)
    else (w, Some args)
  else (w, Some args).

(** The block under [if args.download:]; [None] is the early [return]. *)
Definition download_step (E : env) (args : Namespace) (img_dir : string)
    (w : world) : world * outcome (option unit) :=
  let w := match img_files w with
           | Some _ => emit [Rmtree img_dir] w
           | None => w
           end in
  let w := World (Some ∅) (pdf_dir w) (out w ++ [Mkdir img_dir]) in
  if contains "babel.hathitrust.org" (url args) then
    let '(st, r) :=
      download_images (url args) (pages args) img_dir (OfSite BABLE)
        (net E) (rnd E) (completion E) (State ∅ (out w)) in
    (World (Some (files st)) (pdf_dir w) (log st),
     match r with
     | Returned _ => Returned (Some ())
     | Raised e => Raised e
     end)
  else (emit [Print "Not a recognized URL, exiting..."] w, Returned None).

(** [make_pdf]. The file that [open] creates and the work of
    [img2pdf.convert] are outside the world modelled here: the call is
    recorded as the event [Img2pdf] with the list of images and the path
    of the PDF, and nothing is said about where that path leads or about
    [img2pdf] refusing its input. *)
Definition make_pdf (E : env) (image_directory pdf_directory : string)
    (author title : string) (w : world) : world * outcome string :=
  match img_files w with
  | None => (w, Raised FileNotFoundError)
  | Some fs =>
      match find_images image_directory (listdir E fs) with
      | Raised e => (w, Raised e)
      | Returned image_files =>
          let pdf_name := title +:+ " - " +:+ author +:+ ".pdf" in
          (emit [Print ("creating " +:+ pdf_name);
                 Img2pdf image_files (join pdf_directory pdf_name)] w,
           Returned pdf_name)
      end
  end.

Definition ocr_pdf (directory pdf_file : string) (w : world) : world :=
  emit [Ocrmypdf (join directory pdf_file)
          (join directory ("[OCR] " +:+ pdf_file))] w.

Definition after_download (E : env) (args : Namespace)
    (img_dir pdf_dif : string) (w : world) : world * outcome unit :=
  let pdf_name := title args +:+ " - " +:+ author args +:+ ".pdf" in
  let '(w, r) :=
    if pdf args then
      let w := if pdf_dir w then w
               else World (img_files w) true (out w ++ [Mkdir pdf_dif]) in
      make_pdf E img_dir pdf_dif (author args) (title args) w
    else (w, Returned pdf_name) in
  match r with
  | Raised e => (w, Raised e)
  | Returned pdf_name =>
      if ocr args then (ocr_pdf pdf_dif pdf_name w, Returned ())
      else (w, Returned ())
  end.

Definition main (E : env) (args : Namespace) (w : world)
    : world * outcome unit :=
  match resolve_arguments E args w with
  | (w, None) => (w, Returned ())
  | (w, Some args) =>
      let img_dir := join (here E) "tmp" in
      let pdf_dif := join (here E) "pdf" in
      if download args then
        match download_step E args img_dir w with
        | (w, Raised e) => (w, Raised e)
        | (w, Returned None) => (w, Returned ())
        | (w, Returned (Some _)) => after_download E args img_dir pdf_dif w
        end
      else after_download E args img_dir pdf_dif w
  end.


(** The events of the assembly steps, and those that change the image
    directory. *)
Definition is_assembly (e : event) : bool :=
  match e with
  | Img2pdf _ _ | Ocrmypdf _ _ => true
  | _ => false
  end.

Definition changes_images (e : event) : bool :=
  match e with
  | Rmtree _ | WriteFile _ => true
  | _ => false
  end.

End Main.

(** ** Interactive prompting *)

Module Prompting.
Import Py Main.

(** [str.lower] on the ASCII letters, which is all that a comparison
    with an ASCII word needs. *)
Definition lower_char (c : ascii) : ascii :=
  if in_range 65 90 c then ascii_of_N (N_of_ascii c + 32) else c.

Fixpoint lower (s : string) : string :=
  match s with
  | "" => ""
  | String c s' => String (lower_char c) (lower s')
  end.

(** The body of the loop of [interactive_parsing] for a field that holds
    an [int], a [bool] and a [str]; [new_argument] is the line typed. *)
Definition reparse_int (current : Z) (new_argument : string) : outcome Z :=
  if String.eqb new_argument "" then Returned current
  else match int new_argument with
       | Some i => Returned i
       | None => Raised ValueError
       end.

Definition reparse_bool (current : bool) (new_argument : string) : bool :=
  if String.eqb new_argument "" then current
  else bool_decide (lower new_argument ∈ ["t"; "true"]).

Definition reparse_str (current new_argument : string) : string :=
  if String.eqb new_argument "" then current else new_argument.

(** [interactive_parsing]: the fields are visited in the order of
    [vars(args)], which is the order of the [add_argument] calls;
    [input name] is the line typed at the prompt for [name]. The result
    lists the prompts shown. *)
Definition interactive_parsing (args : Namespace) (input : string → string)
    : list string * outcome Namespace :=
  match reparse_int (pages args) (input "pages") with
  | Raised e => (["url"; "pages"], Raised e)
  | Returned pages' =>
      (["url"; "pages"; "author"; "title"; "download"; "pdf"; "ocr"],
       Returned
         {| url := reparse_str (url args) (input "url");
            pages := pages';
            author := reparse_str (author args) (input "author");
            title := reparse_str (title args) (input "title");
            download := reparse_bool (download args) (input "download");
            pdf := reparse_bool (pdf args) (input "pdf");
            ocr := reparse_bool (ocr args) (input "ocr");
            interactive := interactive args |})
  end.

End Prompting.

(** * Properties *)

Import Py.

(** ** Strings and hex dumps *)

Section strings.

Lemma length_str_take n s :
  String.length (str_take n s) = Nat.min n (String.length s).
Proof.
  revert s; induction n as [|n IH]; intros [|c s]; simpl; auto.
Qed.

Lemma length_upper s : String.length (upper s) = String.length s.
Proof. induction s; simpl; auto. Qed.

Lemma length_hex bs : String.length (hex bs) = (2 * List.length bs)%nat.
Proof. induction bs; simpl; lia. Qed.

Lemma str_take_hex k bs : str_take (2 * k) (hex bs) = hex (take k bs).
Proof.
  revert bs; induction k as [|k IH]; intros [|b bs]; simpl; auto.
  replace (k + S (k + 0))%nat with (S (2 * k)) by lia.
  simpl. do 2 f_equal. apply IH.
Qed.

Lemma upper_char_idemp c : upper_char (upper_char c) = upper_char c.
Proof. by destruct c as [[] [] [] [] [] [] [] []]. Qed.

Lemma upper_idemp s : upper (upper s) = upper s.
Proof. induction s; simpl; [done|]. by rewrite upper_char_idemp, IHs. Qed.

Lemma upper_str_take n s : upper (str_take n s) = str_take n (upper s).
Proof. revert s; induction n; intros [|c s]; simpl; auto. by rewrite IHn. Qed.

Lemma nibble_inj (n m : N) :
  (n < 16)%N → (m < 16)%N →
  upper_char (hexdigit n) = upper_char (hexdigit m) → n = m.
Proof.
  intros Hn Hm.
  assert (Hc : ∀ k, (k < 16)%N → k ∈ (N.of_nat <$> seq 0 16)).
  { intros k Hk. apply list_elem_of_fmap. exists (N.to_nat k).
    split; [lia|]. apply elem_of_seq. lia. }
  apply Hc in Hn, Hm. clear Hc. vm_compute (_ <$> _) in Hn, Hm.
  rewrite !elem_of_cons, elem_of_nil in Hn, Hm.
  intros H.
  repeat destruct Hn as [->|Hn]; try done;
    repeat destruct Hm as [->|Hm]; try done; by vm_compute in H.
Qed.

Lemma byte_of_nibbles (a b : byte) :
  (Byte.to_N a / 16 = Byte.to_N b / 16)%N →
  (Byte.to_N a mod 16 = Byte.to_N b mod 16)%N → a = b.
Proof.
  intros Hq Hr.
  assert (Byte.to_N a = Byte.to_N b) as E.
  { rewrite (N.div_mod (Byte.to_N a) 16), (N.div_mod (Byte.to_N b) 16) by lia.
    by rewrite Hq, Hr. }
  assert (Some a = Some b) as [=]; [|done].
  by rewrite <- !Byte.of_to_N, E.
Qed.

Lemma upper_hex_inj a b : upper (hex a) = upper (hex b) → a = b.
Proof.
  revert b; induction a as [|x a IH]; intros [|y b]; simpl; try done.
  intros [= H1 H2 H3]. f_equal; [|by apply IH].
  apply byte_of_nibbles; apply nibble_inj; try done;
    try (apply N.mod_lt; lia);
    apply N.Div0.div_lt_upper_bound;
    pose proof (Byte.to_N_bounded x); pose proof (Byte.to_N_bounded y); lia.
Qed.

End strings.

(** ** Filetype sniffer *)

Section sniffer.
Import Sniffer.

Lemma sig_matches_bytes (sig : string) (signature p : bytes) :
  sig = upper (hex signature) →
  (List.length signature ≤ 16)%nat →
  sig_matches sig (hex (take 16 p)) = leading_bytes_match p signature.
Proof.
  intros -> Hk. unfold sig_matches, leading_bytes_match.
  rewrite length_upper, length_hex, str_take_hex, take_take, Nat.min_l by done.
  destruct (bool_decide_reflect (take (List.length signature) p = signature))
    as [E|E].
  - rewrite E. apply String.eqb_refl.
  - apply String.eqb_neq. by intros H%upper_hex_inj.
Qed.

Lemma sig_matches_upper sig s : sig_matches sig (upper s) = sig_matches sig s.
Proof.
  unfold sig_matches. by rewrite <- upper_str_take, upper_idemp, upper_str_take.
Qed.

Lemma sig_matches_short sig s :
  (String.length s < String.length sig)%nat → sig_matches sig s = false.
Proof.
  intros Hlt. unfold sig_matches. apply String.eqb_neq. intros E.
  apply (f_equal String.length) in E.
  rewrite length_upper, length_str_take in E. lia.
Qed.

(** C3. The sniffer is a total function of the first 16 bytes of the
    payload: it returns the extension of the first entry of the
    signature table, taken in the listed order, whose bytes equal the
    payload's leading bytes truncated to that signature's length, and
    the empty (unknown) extension when none does; the case of the hex
    digits it is given does not matter; a payload shorter than a
    signature never matches it. *)
Theorem sniff_first_signature_match (payload : bytes) :
  sniff payload = extension (sniff_spec payload)
  ∧ sniff payload = sniff (take 16 payload)
  ∧ (∀ s, determine_filetype (upper s) = determine_filetype s)
  ∧ (∀ ext ss sig, (ext, ss) ∈ sigs → sig ∈ ss →
       (2 * List.length payload < String.length sig)%nat →
       sig_matches sig (hex (take 16 payload)) = false)
  ∧ (∀ ct signature, (ct, signature) ∈ signature_table →
       (List.length payload < List.length signature)%nat →
       leading_bytes_match payload signature = false)
  ∧ ((∀ ct signature, (ct, signature) ∈ signature_table →
        leading_bytes_match payload signature = false) →
     sniff payload = "").
Proof.
  assert (Hspec : sniff payload = extension (sniff_spec payload)).
  { unfold sniff, determine_filetype, sigs, sniff_spec, signature_table.
    cbn [first_ext existsb first_match].
    rewrite
      (sig_matches_bytes "474946383761" [x47; x49; x46; x38; x37; x61]),
      (sig_matches_bytes "474946383961" [x47; x49; x46; x38; x39; x61]),
      (sig_matches_bytes "89504E470D0A1A0A"
         [x89; x50; x4e; x47; x0d; x0a; x1a; x0a]),
      (sig_matches_bytes "FFD8FFDB" [xff; xd8; xff; xdb]),
      (sig_matches_bytes "FFD8FFE000104A4649460001"
         [xff; xd8; xff; xe0; x00; x10; x4a; x46; x49; x46; x00; x01])
      by (done || (cbn; lia)).
    repeat (destruct (leading_bytes_match payload _); [done|]). done. }
  split; [done|]. split; [|split; [|split; [|split]]].
  - unfold sniff. by rewrite take_take.
  - intros s. unfold determine_filetype, sigs. cbn [first_ext existsb].
    by rewrite !sig_matches_upper.
  - intros ext ss sig _ _ Hlt. apply sig_matches_short.
    rewrite length_hex, length_take. lia.
  - intros ct signature _ Hlt. apply bool_decide_eq_false. intros E.
    apply (f_equal List.length) in E. rewrite length_take in E. lia.
  - intros Hno. rewrite Hspec. unfold sniff_spec, signature_table.
    cbn [first_match].
    rewrite (Hno gif), (Hno gif), (Hno png), (Hno jpg), (Hno jpg)
      by (unfold signature_table; rewrite !elem_of_cons; auto 10).
    done.
Qed.

End sniffer.

(** ** URL templater *)

Section templater.
Import Templater.

Lemma app_cons c a b : String c a +:+ b = String c (a +:+ b).
Proof. done. Qed.

Lemma app_nil_l a : "" +:+ a = a.
Proof. done. Qed.

Lemma str_drop_app a b : str_drop (String.length a) (a +:+ b) = b.
Proof. induction a; simpl; auto. Qed.

Lemma match_at_ge p s n : match_at p s = Some n → (5 ≤ n)%nat.
Proof.
  destruct p. unfold match_at.
  repeat (case_match; try done). intros [= <-]. lia.
Qed.

Lemma sub_go_skip p repl k s :
  sub_go p repl k s = sub_go p repl 0 (str_drop k s).
Proof.
  revert k; induction s as [|c s IH]; intros [|k]; simpl; done.
Qed.

Lemma sub_no_occurrence p repl s : no_occurrence p s → sub p repl s = s.
Proof.
  unfold sub. induction s as [|c s IH]; intros Hno; [done|].
  pose proof (Hno 0%nat) as H0. cbn [str_drop] in H0.
  cbn [sub_go]. rewrite H0. f_equal. apply IH.
  intros k. apply (Hno (S k)).
Qed.

Lemma sub_first_occurrence p repl s pre tok post :
  first_occurrence p s pre tok post →
  sub p repl s = pre +:+ repl +:+ sub p repl post.
Proof.
  unfold sub. revert s; induction pre as [|c pre IH]; intros s (-> & Hm & Hlt).
  - rewrite app_nil_l in *. destruct tok as [|c tok].
    { apply match_at_ge in Hm. simpl in Hm. lia. }
    rewrite app_cons in *. cbn [sub_go]. rewrite Hm. cbn [String.length].
    rewrite (app_nil_l (repl +:+ _)). f_equal.
    by rewrite sub_go_skip, str_drop_app.
  - rewrite !app_cons. pose proof (Hlt 0%nat) as H0.
    cbn [str_drop String.length] in H0. rewrite app_cons in H0.
    cbn [sub_go]. rewrite H0 by lia. f_equal. apply IH.
    split; [done|]. split; [done|]. intros k Hk.
    apply (Hlt (S k)). simpl. lia.
Qed.

Example first_occurrence_example :
  first_occurrence SeqDigits "u?seq=7;next_seq=8" "u?" "seq=7" ";next_seq=8"
  ∧ no_occurrence SeqDigits ";size=125".
Proof.
  split.
  - split; [done|]. split; [done|]. intros k Hk. cbn in Hk.
    destruct k as [|[|k]]; [done..|lia].
  - intros k. do 9 (destruct k as [|k]; [done|]). by destruct k.
Qed.

Lemma sub_first_first_occurrence p repl s pre tok post :
  first_occurrence p s pre tok post →
  sub_first p repl s = pre +:+ repl +:+ post.
Proof.
  revert s; induction pre as [|c pre IH]; intros s (-> & Hm & Hlt).
  - rewrite app_nil_l in *. destruct tok as [|c tok].
    { apply match_at_ge in Hm. simpl in Hm. lia. }
    rewrite app_cons in *. cbn [sub_first]. rewrite Hm.
    rewrite (app_nil_l (repl +:+ _)). f_equal.
    by rewrite <- app_cons, str_drop_app.
  - rewrite !app_cons. pose proof (Hlt 0%nat) as H0.
    cbn [str_drop String.length] in H0. rewrite app_cons in H0.
    cbn [sub_first]. rewrite H0 by lia. f_equal. apply IH.
    split; [done|]. split; [done|]. intros k Hk.
    apply (Hlt (S k)). simpl. lia.
Qed.

Lemma StronglySorted_seqZ m n : StronglySorted Z.lt (seqZ m n).
Proof.
  remember (Z.to_nat n) as k eqn:Hk. revert m n Hk.
  induction k as [|k IH]; intros m n Hk.
  - rewrite seqZ_nil by lia. constructor.
  - rewrite seqZ_cons by lia. constructor.
    + apply IH. lia.
    + apply Forall_seqZ. lia.
Qed.

Lemma url_info_indices expression replacement base_url npages :
  (url_info expression replacement base_url npages).*1 = seqZ 1 npages.
Proof.
  unfold url_info, range. rewrite <- list_fmap_compose.
  replace (npages + 1 - 1) with npages by lia. apply list_fmap_id.
Qed.

(** C2. For every page count of at least 1 the templating loop returns
    exactly that many work items, and their page indices are the
    integers 1..pageCount, distinct and in ascending order. *)
Theorem derive_work_items_indices (base_url : string) (npages : Z) :
  1 ≤ npages →
  ∃ items,
    derive_work_items base_url npages (OfSite BABLE) = Some items
    ∧ Z.of_nat (List.length items) = npages
    ∧ items.*1 = seqZ 1 npages
    ∧ NoDup items.*1
    ∧ StronglySorted Z.lt items.*1
    ∧ ∀ i, i ∈ items.*1 ↔ 1 ≤ i ≤ npages.
Proof.
  intros Hn. eexists. split; [done|].
  rewrite <- (length_fmap fst), url_info_indices, length_seqZ.
  split; [lia|]. split; [done|]. split; [apply NoDup_seqZ|].
  split; [apply StronglySorted_seqZ|].
  intros i. rewrite elem_of_seqZ. lia.
Qed.

Lemma derive_work_items_indices_witness :
  ∃ items,
    derive_work_items "https://babel.hathitrust.org/cgi/imgsrv/image?id=x;seq=1"
      3 (OfSite BABLE) = Some items
    ∧ Z.of_nat (List.length items) = 3
    ∧ items.*1 = seqZ 1 3
    ∧ NoDup items.*1
    ∧ StronglySorted Z.lt items.*1
    ∧ ∀ i, i ∈ items.*1 ↔ 1 ≤ i ≤ 3.
Proof. apply derive_work_items_indices. lia. Defined.

(** C6, as stated, fails: with two tokens in the base URL the program
    rewrites both, where replacing the first occurrence only would leave
    the second one alone. *)
Lemma first_occurrence_only_refuted :
  let base_url :=
    "https://babel.hathitrust.org/cgi/imgsrv/image?id=x;seq=7;next_seq=8" in
  derive_work_items base_url 1 (OfSite BABLE)
    = Some [(1, "https://babel.hathitrust.org/cgi/imgsrv/image?id=x;seq=1;next_seq=1")]
  ∧ sub_first SeqDigits ("seq=" +:+ str 1) base_url
    = "https://babel.hathitrust.org/cgi/imgsrv/image?id=x;seq=1;next_seq=8"
  ∧ ¬ (∀ base_url npages i items,
         1 ≤ i ≤ npages →
         derive_work_items base_url npages (OfSite BABLE) = Some items →
         (i, sub_first SeqDigits ("seq=" +:+ str i) base_url) ∈ items).
Proof.
  split; [by vm_compute|]. split; [by vm_compute|].
  intros H.
  specialize (H "https://babel.hathitrust.org/cgi/imgsrv/image?id=x;seq=7;next_seq=8"
                1 1 _ ltac:(lia) eq_refl).
  vm_compute in H. apply list_elem_of_In in H. simpl in H.
  by destruct H as [[=]|[]].
Qed.

(** C6, amended. For each page index i from 1 to pageCount the request
    URL is the base URL in which every occurrence of seq=<digits>, taken
    from left to right without overlap, is replaced by seq= followed by
    i: the text before the first occurrence is kept, the occurrence
    becomes seq=i, and the remainder is rewritten in the same way. A
    base URL without the token is left unchanged, and one with a single
    occurrence has exactly that occurrence replaced. *)
Theorem request_url_replaces_every_occurrence
    (base_url : string) (npages i : Z) :
  1 ≤ i ≤ npages →
  ∃ items request_url,
    derive_work_items base_url npages (OfSite BABLE) = Some items
    ∧ items !! Z.to_nat (i - 1) = Some (i, request_url)
    ∧ (∀ pre tok post,
         first_occurrence SeqDigits base_url pre tok post →
         request_url
         = pre +:+ ("seq=" +:+ str i)
             +:+ sub SeqDigits ("seq=" +:+ str i) post)
    ∧ (no_occurrence SeqDigits base_url → request_url = base_url)
    ∧ (∀ pre tok post,
         first_occurrence SeqDigits base_url pre tok post →
         no_occurrence SeqDigits post →
         request_url = pre +:+ ("seq=" +:+ str i) +:+ post
         ∧ request_url = sub_first SeqDigits ("seq=" +:+ str i) base_url).
Proof.
  intros Hi. eexists _, (sub SeqDigits ("seq=" +:+ str i) base_url).
  split; [done|]. split.
  { unfold url_info, range. rewrite list_lookup_fmap.
    rewrite lookup_seqZ_lt by lia. rewrite Z2Nat.id by lia.
    by replace (1 + (i - 1)) with i by lia. }
  split; [|split].
  - intros pre tok post Hocc. by apply (sub_first_occurrence _ _ _ _ tok).
  - apply sub_no_occurrence.
  - intros pre tok post Hocc Hno.
    rewrite (sub_first_first_occurrence _ _ _ _ _ _ Hocc).
    rewrite (sub_first_occurrence _ _ _ _ _ _ Hocc).
    by rewrite (sub_no_occurrence _ _ _ Hno).
Qed.

Lemma request_url_replaces_every_occurrence_witness :
  ∃ items request_url,
    derive_work_items "u?seq=7;next_seq=8" 3 (OfSite BABLE) = Some items
    ∧ items !! Z.to_nat (2 - 1) = Some (2, request_url)
    ∧ (∀ pre tok post,
         first_occurrence SeqDigits "u?seq=7;next_seq=8" pre tok post →
         request_url
         = pre +:+ ("seq=" +:+ str 2)
             +:+ sub SeqDigits ("seq=" +:+ str 2) post)
    ∧ (no_occurrence SeqDigits "u?seq=7;next_seq=8" →
       request_url = "u?seq=7;next_seq=8")
    ∧ (∀ pre tok post,
         first_occurrence SeqDigits "u?seq=7;next_seq=8" pre tok post →
         no_occurrence SeqDigits post →
         request_url = pre +:+ ("seq=" +:+ str 2) +:+ post
         ∧ request_url
           = sub_first SeqDigits ("seq=" +:+ str 2) "u?seq=7;next_seq=8").
Proof. apply request_url_replaces_every_occurrence. lia. Defined.

End templater.

(** ** Retrying fetcher *)

Section fetcher.
Import Fetcher.

Lemma randint_bounds a b r : a ≤ b → a ≤ randint a b r ≤ b.
Proof.
  intros Hab. unfold randint.
  pose proof (Z.mod_pos_bound r (b - a + 1)). lia.
Qed.


Lemma pow2_pos i : 0 ≤ i → 1 ≤ 2 ^ i.
Proof. intros Hi. pose proof (Z.pow_pos_nonneg 2 i). lia. Qed.



Lemma fetch_loop_all_fail attempts page url net rnd :
  (∀ i, i ∈ attempts → ∃ code, net i = HTTPFailure code) →
  ∃ log,
    fetch_loop attempts page url net rnd = (log, Returned None)
    ∧ attempts_made log = List.length attempts
    ∧ sleeps log
      = (λ i, (i, randint 0 (2 ^ i - 1) (rnd i))) <$> attempts
    ∧ (∀ i, last attempts = Some i →
         last log = Some (Sleep (randint 0 (2 ^ i - 1) (rnd i)))).
Proof.
  induction attempts as [|j rest IH]; intros Hfail; cbn [fetch_loop].
  - by eexists.
  - destruct (Hfail j) as [code ->]; [by left|].
    destruct IH as (log & Hlog & Hn & Hs & Hl).
    { intros i Hi. apply Hfail. by right. }
    rewrite Hlog. eexists. split; [done|]. unfold attempts_made in *.
    split; [cbn; by rewrite Hn|].
    split; [unfold sleeps in *; cbn -[randint]; by rewrite Hs|].
    intros i Hi. destruct rest as [|k rest].
    + injection Hi as ->. by injection Hlog as <-.
    + rewrite last_cons_cons in Hi. specialize (Hl i Hi).
      destruct log as [|e log]; [done|].
      by rewrite !last_cons_cons.
Qed.






(** C10. When each of the 10 attempts fails with an HTTP error, the
    fetcher still sleeps after the last one, for a time drawn for
    attempt 9 (at most 2^9 - 1), makes no further attempt, and returns
    [None] rather than a record of the page and the last error. *)
Theorem fetch_image_exhausted_returns_none (page : Z) (url : string)
    (net : Z → attempt) (rnd : Z → Z) :
  (∀ i, 0 ≤ i < 10 → ∃ code, net i = HTTPFailure code) →
  ∃ log,
    fetch_image (page, url) net rnd = (log, Returned None)
    ∧ attempts_made log = 10%nat
    ∧ List.length (sleeps log) = 10%nat
    ∧ last log = Some (Sleep (randint 0 (2 ^ 9 - 1) (rnd 9)))
    ∧ 0 ≤ randint 0 (2 ^ 9 - 1) (rnd 9) ≤ 2 ^ 9 - 1.
Proof.
  intros Hfail. unfold fetch_image.
  destruct (fetch_loop_all_fail (range 0 10) page url net rnd)
    as (log & Hlog & Hn & Hs & Hl).
  { intros i Hi%elem_of_seqZ. apply Hfail. lia. }
  exists log. split; [done|]. split; [done|].
  split; [by rewrite Hs, length_fmap|].
  split; [by apply Hl|]. by apply randint_bounds.
Qed.

Lemma fetch_image_exhausted_returns_none_witness :
  ∃ log,
    fetch_image (5, "u") (λ _, HTTPFailure 503) (λ _, 1000)
    = (log, Returned None)
    ∧ attempts_made log = 10%nat
    ∧ List.length (sleeps log) = 10%nat
    ∧ last log = Some (Sleep (randint 0 (2 ^ 9 - 1) 1000))
    ∧ 0 ≤ randint 0 (2 ^ 9 - 1) 1000 ≤ 2 ^ 9 - 1.
Proof.
  apply (fetch_image_exhausted_returns_none 5 "u"
           (λ _, HTTPFailure 503) (λ _, 1000)).
  intros i _. by exists 503.
Defined.

End fetcher.

(** ** Page store *)

Section page_store.
Import PageStore.

Lemma digit_char c :
  is_digit c = true →
  is_space c = false ∧ Ascii.eqb c "-" = false ∧ Ascii.eqb c "+" = false
  ∧ Ascii.eqb c "_" = false ∧ Ascii.eqb c "." = false.
Proof. destruct c as [[] [] [] [] [] [] [] []]; by vm_compute. Qed.

Lemma all_digits_string_of_uint d :
  all_digits (NilEmpty.string_of_uint d) = true.
Proof. induction d; cbn [NilEmpty.string_of_uint all_digits]; by try rewrite IHd. Qed.

Lemma str_nonneg n :
  0 ≤ n →
  ∃ d, d ≠ Decimal.Nil ∧ str n = NilEmpty.string_of_uint d ∧ Z.of_uint d = n.
Proof.
  intros Hn. destruct n as [|q|q]; [by exists (Decimal.D0 Decimal.Nil)| |lia].
  exists (Pos.to_uint q). split; [apply DecimalPos.Unsigned.to_uint_nonnil|].
  split.
  - unfold str. cbn [Z.to_int NilZero.string_of_int NilZero.string_of_uint].
    pose proof (DecimalPos.Unsigned.to_uint_nonnil q). by destruct (Pos.to_uint q).
  - apply (DecimalZ.of_to (Z.pos q)).
Qed.

Lemma str_all_digits n : 0 ≤ n → all_digits (str n) = true ∧ str n ≠ "".
Proof.
  intros (d & Hd & -> & _)%str_nonneg.
  split; [apply all_digits_string_of_uint|]. by destruct d.
Qed.

Lemma strip_digits s : all_digits s = true → strip s = s.
Proof.
  intros Hs. unfold strip.
  assert (lstrip s = s) as ->.
  { destruct s as [|c s]; [done|]. cbn in *.
    apply andb_prop in Hs as [Hc _]. by destruct (digit_char c Hc) as [-> _]. }
  induction s as [|c s IH]; [done|]. cbn in *.
  apply andb_prop in Hs as [Hc Hs]. rewrite (IH Hs).
  destruct (digit_char c Hc) as [-> _]. by destruct s.
Qed.

Lemma int_digits_all prev s :
  all_digits s = true →
  s ≠ "" ∨ Ascii.eqb prev "_" = false →
  int_digits prev s = Some s.
Proof.
  revert prev; induction s as [|c s IH]; intros prev Hs Hp; cbn in *.
  - destruct Hp as [?| ->]; done.
  - apply andb_prop in Hs as [Hc Hs]. rewrite Hc.
    rewrite IH; [done|done|]. right. by destruct (digit_char c Hc) as (_&_&_&->&_).
Qed.

Lemma int_str n : 0 ≤ n → int (str n) = Some n.
Proof.
  intros Hn. destruct (str_all_digits n Hn) as [Hall Hne].
  destruct (str_nonneg n Hn) as (d & Hd & E & Hv).
  unfold int. rewrite strip_digits by done.
  destruct (str n) as [|c t] eqn:Es; [done|].
  pose proof Hall as Hc. cbn in Hc. apply andb_prop in Hc as [Hc _].
  destruct (digit_char c Hc) as (_ & -> & -> & _).
  unfold int_unsigned. rewrite int_digits_all by (auto || done).
  cbn [mbind option_bind].
  change (NilZero.uint_of_string (String c t))
    with (NilEmpty.uint_of_string (String c t)).
  rewrite E, NilEmpty.usu. cbn. by rewrite Hv.
Qed.

Lemma all_digits_no_dot s : all_digits s = true → has_char "." s = false.
Proof.
  induction s as [|c s IH]; [done|]. cbn. intros [Hc Hs]%andb_prop.
  rewrite IH by done. by destruct (digit_char c Hc) as (_&_&_&_&->).
Qed.

Lemma split_no_sep sep s : has_char sep s = false → split sep s = [s].
Proof.
  induction s as [|c s IH]; [done|]. cbn. intros [Hc Hs]%orb_false_elim.
  by rewrite Hc, IH.
Qed.

Lemma split_app_sep sep a b :
  has_char sep a = false → split sep (a +:+ String sep b) = a :: split sep b.
Proof.
  induction a as [|c a IH].
  - intros _. rewrite app_nil_l. cbn [split]. by rewrite Ascii.eqb_refl.
  - rewrite app_cons. cbn [split has_char].
    intros [Hc Ha]%orb_false_elim. by rewrite Hc, IH.
Qed.

Lemma split_last sep stem ext :
  has_char sep ext = false →
  ∃ l, l ≠ [] ∧ split sep (stem +:+ String sep ext) = l ++ [ext].
Proof.
  intros He. induction stem as [|c stem (l & Hl & IH)].
  - exists [""]. split; [done|]. rewrite app_nil_l. cbn [split].
    by rewrite Ascii.eqb_refl, split_no_sep.
  - rewrite app_cons. cbn [split]. rewrite IH. destruct (Ascii.eqb c sep).
    + by exists ("" :: l).
    + destruct l as [|h t]; [done|]. by exists (String c h :: t).
Qed.

Lemma is_image_dotted stem ext :
  has_char "." ext = false →
  is_image (stem +:+ String "." ext) = bool_decide (ext ∈ image_types).
Proof.
  intros He. unfold is_image.
  destruct (split_last "." stem ext He) as (l & _ & ->).
  by rewrite List.last_last.
Qed.

Lemma is_image_dotless x :
  has_char "." x = false → is_image x = bool_decide (x ∈ image_types).
Proof. intros Hx. unfold is_image. by rewrite split_no_sep. Qed.

Lemma sort_key_leading a b :
  has_char "." a = false →
  sort_key (a +:+ String "." b) = int a ∧ sort_key a = int a.
Proof.
  intros Ha. unfold sort_key.
  by rewrite split_app_sep, (split_no_sep "." a) by done.
Qed.

Lemma app_nil_r a : a +:+ "" = a.
Proof. induction a as [|c a IH]; [done|]. by rewrite app_cons, IH. Qed.

Lemma is_image_page (p : Z * string) :
  0 ≤ p.1 → p.2 ∈ stored_extensions →
  is_image (page_file_name p) = bool_decide (p.2 ≠ "").
Proof.
  destruct p as [n e]. cbn [fst snd]. intros Hn He.
  destruct (str_all_digits n Hn) as [Hall Hne].
  unfold stored_extensions in He. rewrite !elem_of_cons, elem_of_nil in He.
  unfold page_file_name. cbn [fst snd].
  destruct He as [->|[->|[->|[->|[]]]]];
    [by rewrite is_image_dotted..|].
  rewrite app_nil_r, is_image_dotless by by apply all_digits_no_dot.
  apply bool_decide_ext. split; [|done].
  unfold image_types. rewrite !elem_of_cons, elem_of_nil.
  intros [E|[E|[E|[]]]]; by rewrite E in Hall.
Qed.

Lemma sort_key_page (p : Z * string) :
  0 ≤ p.1 → p.2 ∈ stored_extensions → sort_key (page_file_name p) = Some p.1.
Proof.
  destruct p as [n e]. cbn [fst snd]. intros Hn He.
  destruct (str_all_digits n Hn) as [Hall%all_digits_no_dot Hne].
  unfold stored_extensions in He. rewrite !elem_of_cons, elem_of_nil in He.
  unfold page_file_name. cbn [fst snd].
  destruct (sort_key_leading (str n) "gif" Hall) as [_ Hk].
  destruct He as [->|[->|[->|[->|[]]]]];
    [by rewrite (proj1 (sort_key_leading _ _ Hall)), int_str..|].
  by rewrite app_nil_r, Hk, int_str.
Qed.

Lemma insert_by_key_perm {A} (x : Z * A) l : insert_by_key x l ≡ₚ x :: l.
Proof.
  induction l as [|y l IH]; cbn; [done|]. case_match; [|done].
  rewrite IH. apply Permutation_swap.
Qed.

Lemma sort_by_key_perm {A} (l : list (Z * A)) : sort_by_key l ≡ₚ l.
Proof.
  induction l as [|x l IH]; cbn; [done|].
  by rewrite insert_by_key_perm, IH.
Qed.

Lemma insert_by_key_sorted {A} (x : Z * A) l :
  StronglySorted (λ a b, a.1 ≤ b.1) l →
  StronglySorted (λ a b, a.1 ≤ b.1) (insert_by_key x l).
Proof.
  induction 1 as [|y l Hs IH Hy]; cbn; [by repeat constructor|].
  destruct (Z.ltb_spec y.1 x.1).
  - constructor; [done|]. rewrite insert_by_key_perm.
    constructor; [lia|done].
  - constructor; [by constructor|]. constructor; [done|].
    eapply Forall_impl; [done|]. cbn. lia.
Qed.

Lemma sort_by_key_sorted {A} (l : list (Z * A)) :
  StronglySorted (λ a b, a.1 ≤ b.1) (sort_by_key l).
Proof.
  induction l; cbn; [constructor|]. by apply insert_by_key_sorted.
Qed.

Lemma sort_by_key_fmap {A B} (g : Z * A → Z * B) l :
  (∀ x, (g x).1 = x.1) → sort_by_key (g <$> l) = g <$> sort_by_key l.
Proof.
  intros Hg. induction l as [|x l IH]; [done|]. cbn. rewrite IH.
  generalize (sort_by_key l). intros k.
  induction k as [|y k IHk]; [done|]. cbn. rewrite !Hg.
  destruct (y.1 <? x.1); [|done]. cbn. by rewrite IHk.
Qed.

Lemma sorted_distinct_strict (l : list Z) :
  StronglySorted Z.le l → NoDup l → StronglySorted Z.lt l.
Proof.
  induction 1 as [|x l Hs IH Hx]; intros Hnd; [constructor|].
  inversion_clear Hnd as [|? ? Hnotin Hnd']. constructor; [by apply IH|].
  rewrite Forall_forall in Hx |- *. intros y Hy.
  specialize (Hx y Hy). assert (x ≠ y) by (by intros ->). lia.
Qed.

Lemma find_images_pages (directory : string) (pages : list (Z * string)) :
  Forall (λ p, 0 ≤ p.1 ∧ p.2 ∈ stored_extensions) pages →
  find_images directory (page_file_name <$> pages)
  = Returned ((λ p, join directory (page_file_name p))
                <$> sort_by_key (filter (λ p, p.2 ≠ "") pages)).
Proof.
  intros Hvalid. unfold find_images.
  assert (filter (λ x, is_image x = true) (page_file_name <$> pages)
          = page_file_name <$> filter (λ p, p.2 ≠ "") pages) as ->.
  { induction Hvalid as [|p l [Hn He] Hl IH]; [done|].
    rewrite fmap_cons, !filter_cons, IH, (is_image_page p Hn He).
    destruct (decide (p.2 ≠ "")).
    - by rewrite bool_decide_true, decide_True by done.
    - by rewrite bool_decide_false, decide_False by done. }
  assert (Forall (λ p, 0 ≤ p.1 ∧ p.2 ∈ stored_extensions)
            (filter (λ p, p.2 ≠ "") pages)) as Hkept.
  { rewrite Forall_forall in Hvalid |- *.
    intros p [_ Hp]%list_elem_of_filter. by apply Hvalid. }
  generalize dependent (filter (λ p : Z * string, p.2 ≠ "") pages).
  intros kept Hkept.
  assert (mapM (λ x, (λ k, (k, x)) <$> sort_key x) (page_file_name <$> kept)
          = Some ((λ p, (p.1, page_file_name p)) <$> kept)) as ->.
  { apply mapM_Some. apply Forall2_fmap, Forall_Forall2_diag.
    eapply Forall_impl; [done|]. intros p [Hn He].
    cbn. by rewrite (sort_key_page p Hn He). }
  rewrite (sort_by_key_fmap (λ p, (p.1, page_file_name p))) by done.
  f_equal. by rewrite <- !list_fmap_compose.
Qed.

(** C4. The page store orders by the number in front of the first dot:
    whatever order the directory lists 3.png, 1.jpg and 10.gif in, they
    come back as 1.jpg, 3.png, 10.gif; and for every directory of page
    files named by distinct positive indices the result is exactly the
    stored pages with a known extension, in strictly ascending order of
    index, with nothing put in for an index that is missing. *)
Theorem find_images_numeric_order (directory : string) :
  (∀ listing,
     listing ≡ₚ ["3.png"; "1.jpg"; "10.gif"] →
     find_images directory listing
     = Returned (join directory <$> ["1.jpg"; "3.png"; "10.gif"]))
  ∧ (∀ pages : list (Z * string),
       Forall (λ p, 1 ≤ p.1 ∧ p.2 ∈ stored_extensions) pages →
       NoDup pages.*1 →
       ∃ kept,
         find_images directory (page_file_name <$> pages)
         = Returned ((λ p, join directory (page_file_name p)) <$> kept)
         ∧ kept ≡ₚ filter (λ p, p.2 ≠ "") pages
         ∧ StronglySorted Z.lt kept.*1).
Proof.
  split.
  - intros listing Hperm. symmetry in Hperm.
    apply permutations_Permutation in Hperm.
    vm_compute (permutations _) in Hperm.
    rewrite !elem_of_cons, elem_of_nil in Hperm.
    destruct Hperm as [->|[->|[->|[->|[->|[->|[]]]]]]]; by vm_compute.
  - intros pages Hvalid Hnd.
    exists (sort_by_key (filter (λ p, p.2 ≠ "") pages)).
    split; [|split].
    + apply find_images_pages. eapply Forall_impl; [done|].
      intros p [Hp He]. split; [lia|done].
    + apply sort_by_key_perm.
    + apply sorted_distinct_strict.
      * apply (StronglySorted_fmap fst (λ a b, a.1 ≤ b.1)); [done|].
        apply sort_by_key_sorted.
      * rewrite sort_by_key_perm.
        eapply sublist_NoDup; [done|]. apply fmap_sublist, sublist_filter.
Qed.

Lemma find_images_numeric_order_witness :
  let pages := [(3, ".png"); (1, ".jpg"); (10, ".gif"); (7, "")] in
  Forall (λ p, 1 ≤ p.1 ∧ p.2 ∈ stored_extensions) pages
  ∧ NoDup pages.*1
  ∧ ∃ kept,
      find_images "tmp" (page_file_name <$> pages)
      = Returned ((λ p, join "tmp" (page_file_name p)) <$> kept)
      ∧ kept ≡ₚ filter (λ p, p.2 ≠ "") pages
      ∧ StronglySorted Z.lt kept.*1.
Proof.
  intros pages.
  assert (Hvalid : Forall (λ p, 1 ≤ p.1 ∧ p.2 ∈ stored_extensions) pages).
  { apply (bool_decide_unpack _). by vm_compute. }
  assert (Hnd : NoDup pages.*1).
  { apply (bool_decide_unpack _). by vm_compute. }
  split; [done|]. split; [done|].
  exact (proj2 (find_images_numeric_order "tmp") pages Hvalid Hnd).
Defined.

(** C8, as stated, fails: 1.5.png is kept, its component before the
    extension is 1.5, which is no integer, and yet the listing is
    returned, ordered by the leading 1. *)
Lemma malformed_stem_accepted :
  find_images "tmp" ["2.png"; "1.5.png"]
  = Returned ["tmp/1.5.png"; "tmp/2.png"]
  ∧ is_image "1.5.png" = true
  ∧ extension_of "1.5.png" = "png"
  ∧ before_extension "1.5.png" = "1.5"
  ∧ int "1.5" = None
  ∧ ¬ (∀ directory listing x,
         x ∈ listing → is_image x = true →
         int (before_extension x) = None →
         ∃ e, find_images directory listing = Raised e).
Proof.
  do 5 (split; [by vm_compute|]). intros H.
  destruct (H "tmp" ["2.png"; "1.5.png"] "1.5.png") as [e He];
    [set_solver|by vm_compute..|].
  by vm_compute in He.
Qed.

(** C8, amended. The page store keeps the entries that pass [is_image]
    and silently leaves the others out: a name that ends in a dot
    followed by gif, png or jpg is kept, one that ends in a dot
    followed by anything else, or that has no dot and is not one of
    these three words, is not. It fails with [ValueError], and with
    nothing else, exactly when the text in front of the first dot of
    some kept name is not an integer for [int]; otherwise it returns the
    kept names, each joined to the directory. *)
Theorem find_images_filter_and_failure (directory : string)
    (listing : list string) :
  (∀ stem ext, has_char "." ext = false →
     (is_image (stem +:+ String "." ext) = true ↔ ext ∈ image_types))
  ∧ (∀ x, has_char "." x = false → x ∉ image_types → is_image x = false)
  ∧ find_images directory (filter (λ x, is_image x = true) listing)
    = find_images directory listing
  ∧ (∀ a b, has_char "." a = false →
       sort_key (a +:+ String "." b) = int a ∧ sort_key a = int a)
  ∧ (find_images directory listing = Raised ValueError
     ↔ ∃ x, x ∈ listing ∧ is_image x = true ∧ sort_key x = None)
  ∧ (∀ e, find_images directory listing = Raised e → e = ValueError)
  ∧ (∀ names, find_images directory listing = Returned names →
       names ≡ₚ join directory <$> filter (λ x, is_image x = true) listing).
Proof.
  split; [|split; [|split; [|split; [|split; [|split]]]]].
  - intros stem ext He. rewrite is_image_dotted by done.
    apply bool_decide_eq_true.
  - intros x Hx Hno. rewrite is_image_dotless by done.
    by apply bool_decide_eq_false.
  - unfold find_images. by rewrite list_filter_filter_l.
  - apply sort_key_leading.
  - unfold find_images.
    destruct (mapM _ _) as [keyed|] eqn:E.
    + split; [done|]. intros (x & Hx & Hi & Hk).
      assert (mapM (λ x, (λ k, (k, x)) <$> sort_key x)
                (filter (λ x, is_image x = true) listing) = None) as E'.
      { apply mapM_None, Exists_exists. exists x.
        split; [by apply list_elem_of_filter|]. by rewrite Hk. }
      by rewrite E in E'.
    + split; [|done]. intros _.
      apply mapM_None, Exists_exists in E as (x & [Hi Hx]%list_elem_of_filter & Hk).
      exists x. split; [done|]. split; [done|].
      by destruct (sort_key x).
  - unfold find_images. intros e. by destruct (mapM _ _); intros [=].
  - unfold find_images. intros names.
    destruct (mapM _ _) as [keyed|] eqn:E; intros [= <-].
    apply fmap_Permutation. rewrite sort_by_key_perm.
    apply mapM_Some in E. clear -E.
    induction E as [|x [k y] l keyed Hx _ IH]; [done|].
    cbn. rewrite IH. destruct (sort_key x); by simplify_eq/=.
Qed.

End page_store.

(** ** Download coordinator *)

Section coordinator.
Import Templater Fetcher Coordinator PageStore.

Lemma consume_raises directory results st :
  (∃ r, r ∈ results ∧ ∀ page_image, r.2 ≠ Returned (Some page_image)) →
  ∃ st' e, consume directory results st = (st', Raised e).
Proof.
  revert st. induction results as [|[fetch_log r] results IH]; intros st.
  - intros (r & Hr & _). by apply elem_of_nil in Hr.
  - intros (r' & Hr & Hbad). cbn [consume].
    destruct r as [[[page_number image]|]|e]; [|by eauto..].
    apply elem_of_cons in Hr as [->|Hr].
    + by destruct (Hbad (page_number, image)).
    + apply IH. by exists r'.
Qed.

(** A page whose ten attempts all meet an HTTP error makes the whole
    batch end in an exception, whatever the completion order. *)
Lemma download_images_terminal_failure base_url npages directory
    net rnd completion st page :
  1 ≤ page ≤ npages →
  (∀ i, 0 ≤ i < 10 → ∃ code, net page i = HTTPFailure code) →
  (∀ l, completion l ≡ₚ l) →
  ∃ st' e,
    download_images base_url npages directory (OfSite BABLE)
      net rnd completion st = (st', Raised e).
Proof.
  intros Hpage Hfail Hperm. unfold download_images.
  cbn [derive_work_items get_url_replacements mbind option_bind].
  apply consume_raises.
  set (w := (page, sub SeqDigits ("seq=" +:+ str page) base_url)).
  exists (fetch_image w (net w.1) (rnd w.1)). split.
  - apply list_elem_of_fmap. exists w. split; [done|].
    rewrite Hperm. apply list_elem_of_fmap. exists page.
    split; [done|]. apply elem_of_seqZ. lia.
  - destruct (fetch_loop_all_fail (range 0 10) page w.2 (net page) (rnd page))
      as (log & Hlog & _).
    { intros i Hi%elem_of_seqZ. apply Hfail. lia. }
    unfold fetch_image. subst w. cbn [fst snd] in *. by rewrite Hlog.
Qed.

(** C1 fails on the program. Ten pages, page 5 meets HTTP 503 at every
    attempt, the others are PNG images, and the results complete in
    the order of submission: pages 1 to 4 are written, then the [None]
    that stands for page 5 raises [TypeError] out of [download_images],
    and pages 6 to 10 are never written. *)
Theorem download_images_aborts_on_page_5 :
  let net (page i : Z) :=
    if page =? 5 then HTTPFailure 503
    else Body [x89; x50; x4e; x47; x0d; x0a; x1a; x0a] in
  let run :=
    download_images
      "https://babel.hathitrust.org/cgi/imgsrv/image?id=coo.31924000478770;seq=1;size=125;rotation=0"
      10 "tmp" (OfSite BABLE) net (λ _ _, 0) id (State ∅ []) in
  run.2 = Raised TypeError
  ∧ files run.1
    = list_to_map
        ((λ n, ("tmp/" +:+ n +:+ ".png",
                [x89; x50; x4e; x47; x0d; x0a; x1a; x0a]))
           <$> ["1"; "2"; "3"; "4"])
  ∧ find_images "tmp" ((λ n, n +:+ ".png") <$> ["1"; "2"; "3"; "4"])
    = Returned ((λ n, "tmp/" +:+ n +:+ ".png") <$> ["1"; "2"; "3"; "4"]).
Proof. by vm_compute. Qed.

End coordinator.

(** ** The command-line driver *)

Section driver.
Import Templater Fetcher Coordinator PageStore Main.




End driver.


(** * Further properties of the program *)

(** ** Retrying fetcher: the decisive attempt *)

Section fetcher_runs.
Import Fetcher.

Lemma attempts_made_app l1 l2 :
  attempts_made (l1 ++ l2) = (attempts_made l1 + attempts_made l2)%nat.
Proof. unfold attempts_made. by rewrite List.filter_app, length_app. Qed.

Lemma sleeps_app l1 l2 : sleeps (l1 ++ l2) = sleeps l1 ++ sleeps l2.
Proof. apply omap_app. Qed.

Lemma sleep_events_app l1 l2 :
  sleep_events (l1 ++ l2) = sleep_events l1 ++ sleep_events l2.
Proof. apply omap_app. Qed.

Lemma slept_app l1 l2 : slept (l1 ++ l2) = slept l1 + slept l2.
Proof.
  induction l1 as [|e l1 IH]; [done|]. destruct e; cbn; rewrite ?IH; lia.
Qed.

(** A run of failed attempts in front of the remaining ones. *)
Lemma fetch_loop_failed_prefix l1 l2 page url net rnd :
  (∀ i, i ∈ l1 → ∃ code, net i = HTTPFailure code) →
  ∃ log1,
    fetch_loop (l1 ++ l2) page url net rnd
    = (log1 ++ (fetch_loop l2 page url net rnd).1,
       (fetch_loop l2 page url net rnd).2)
    ∧ attempts_made log1 = List.length l1
    ∧ sleeps log1 = (λ i, (i, randint 0 (2 ^ i - 1) (rnd i))) <$> l1
    ∧ sleep_events log1 = (λ i, randint 0 (2 ^ i - 1) (rnd i)) <$> l1
    ∧ (∀ u, Urlopen u ∈ log1 → u = url).
Proof.
  induction l1 as [|j l1 IH]; intros Hfail.
  - exists []. rewrite !List.app_nil_l.
    split; [by destruct (fetch_loop l2 page url net rnd)|].
    split; [done|]. split; [done|]. split; [done|].
    intros u Hu. by apply elem_of_nil in Hu.
  - destruct (Hfail j) as [code Hj]; [by left|].
    destruct IH as (log1 & Hlog & Hn & Hs & Hz & Hu).
    { intros i Hi. apply Hfail. by right. }
    exists (Urlopen url :: PrintEncountered code j page
                              (randint 0 (2 ^ j - 1) (rnd j))
              :: Sleep (randint 0 (2 ^ j - 1) (rnd j)) :: log1).
    split; [|split; [|split; [|split]]].
    + rewrite <- app_comm_cons. cbn [fetch_loop]. by rewrite Hj, Hlog.
    + unfold attempts_made in *. cbn. by rewrite Hn.
    + unfold sleeps in *. cbn -[randint]. by rewrite Hs.
    + unfold sleep_events in *. cbn -[randint]. by rewrite Hz.
    + intros u. rewrite !elem_of_cons.
      intros [[= ->]|[[=]|[[=]|Hin]]]; [done|by apply Hu].
Qed.

Lemma range_split k : 0 ≤ k < 10 → range 0 10 = seqZ 0 k ++ k :: seqZ (k + 1) (9 - k).
Proof.
  intros Hk. unfold range. replace (10 - 0) with (k + (1 + (9 - k))) by lia.
  rewrite seqZ_app by lia. f_equal. rewrite seqZ_app by lia.
  rewrite (seqZ_cons (0 + k) 1) by lia. rewrite seqZ_nil by lia.
  cbn. do 2 f_equal; lia.
Qed.

(** X1. A fetch whose first [k] attempts meet HTTP errors and whose next
    attempt gets a body returns that body with the page index of the work
    item, after [k + 1] requests to the work item's URL and [k] calls of
    [sleep], the i-th of them for the number drawn at attempt i, which is
    also the number printed. *)
Theorem fetch_image_succeeds_after_retries (page : Z) (url : string)
    (net : Z → attempt) (rnd : Z → Z) (k : Z) (b : bytes) :
  0 ≤ k < 10 →
  (∀ i, 0 ≤ i < k → ∃ code, net i = HTTPFailure code) →
  net k = Body b →
  ∃ log,
    fetch_image (page, url) net rnd = (log, Returned (Some (page, b)))
    ∧ attempts_made log = Z.to_nat (k + 1)
    ∧ sleep_events log = (λ i, randint 0 (2 ^ i - 1) (rnd i)) <$> seqZ 0 k
    ∧ sleeps log = (λ i, (i, randint 0 (2 ^ i - 1) (rnd i))) <$> seqZ 0 k
    ∧ (∀ u, Urlopen u ∈ log → u = url).
Proof.
  intros Hk Hfail Hbody. unfold fetch_image. cbn [fst snd].
  rewrite (range_split k Hk).
  destruct (fetch_loop_failed_prefix (seqZ 0 k) (k :: seqZ (k + 1) (9 - k))
              page url net rnd) as (log1 & -> & Hn & Hs & Hz & Hu).
  { intros i Hi%elem_of_seqZ. apply Hfail. lia. }
  cbn [fetch_loop]. rewrite Hbody. cbn [fst snd].
  eexists. split; [done|]. split; [|split; [|split]].
  - rewrite attempts_made_app, Hn, length_seqZ. cbn. lia.
  - rewrite sleep_events_app, Hz. cbn. by rewrite List.app_nil_r.
  - rewrite sleeps_app, Hs. cbn. by rewrite List.app_nil_r.
  - intros u. rewrite elem_of_app, !elem_of_cons, elem_of_nil.
    intros [Hin|[[= ->]|[[=]|[]]]]; [by apply Hu|done].
Qed.

Lemma fetch_image_succeeds_after_retries_witness :
  ∃ log,
    fetch_image (7, "u?seq=7")
      (λ i, if i <? 2 then HTTPFailure 503 else Body [x89; x50])
      (λ _, 5)
    = (log, Returned (Some (7, [x89; x50])))
    ∧ attempts_made log = Z.to_nat (2 + 1)
    ∧ sleep_events log = (λ i, randint 0 (2 ^ i - 1) 5) <$> seqZ 0 2
    ∧ sleeps log = (λ i, (i, randint 0 (2 ^ i - 1) 5)) <$> seqZ 0 2
    ∧ (∀ u, Urlopen u ∈ log → u = "u?seq=7").
Proof.
  apply (fetch_image_succeeds_after_retries 7 "u?seq=7"
           (λ i, if i <? 2 then HTTPFailure 503 else Body [x89; x50])
           (λ _, 5) 2 [x89; x50]).
  - lia.
  - intros i Hi. exists 503. destruct (Z.ltb_spec i 2); [done|lia].
  - reflexivity.
Defined.

(** X2. An exception of [urlopen] that is not an [HTTPError] is not
    retried: it leaves [fetch_image] at the attempt where it occurs, with
    no call of [sleep] after it and no further request; the calls of
    [sleep] before it are those of the earlier attempts. *)
Theorem fetch_image_other_error_not_retried (page : Z) (url : string)
    (net : Z → attempt) (rnd : Z → Z) (k : Z) (e : exn) :
  (∀ code, e ≠ HTTPError code) →
  0 ≤ k < 10 →
  (∀ i, 0 ≤ i < k → ∃ code, net i = HTTPFailure code) →
  net k = OtherFailure e →
  ∃ log,
    fetch_image (page, url) net rnd = (log, Raised e)
    ∧ attempts_made log = Z.to_nat (k + 1)
    ∧ sleep_events log = (λ i, randint 0 (2 ^ i - 1) (rnd i)) <$> seqZ 0 k
    ∧ List.length (sleeps log) = Z.to_nat k
    ∧ last log = Some (Urlopen url).
Proof.
  intros _ Hk Hfail Hexn. unfold fetch_image. cbn [fst snd].
  rewrite (range_split k Hk).
  destruct (fetch_loop_failed_prefix (seqZ 0 k) (k :: seqZ (k + 1) (9 - k))
              page url net rnd) as (log1 & -> & Hn & Hs & Hz & Hu).
  { intros i Hi%elem_of_seqZ. apply Hfail. lia. }
  cbn [fetch_loop]. rewrite Hexn. cbn [fst snd].
  eexists. split; [done|]. split; [|split; [|split]].
  - rewrite attempts_made_app, Hn, length_seqZ. cbn. lia.
  - rewrite sleep_events_app, Hz. cbn. by rewrite List.app_nil_r.
  - by rewrite sleeps_app, Hs, length_app, length_fmap, length_seqZ, Nat.add_0_r.
  - by rewrite last_snoc.
Qed.

Lemma fetch_image_other_error_not_retried_witness :
  ∃ log,
    fetch_image (7, "u?seq=7")
      (λ i, if i <? 1 then HTTPFailure 503 else OtherFailure URLError)
      (λ _, 5)
    = (log, Raised URLError)
    ∧ attempts_made log = Z.to_nat (1 + 1)
    ∧ sleep_events log = (λ i, randint 0 (2 ^ i - 1) 5) <$> seqZ 0 1
    ∧ List.length (sleeps log) = Z.to_nat 1
    ∧ last log = Some (Urlopen "u?seq=7").
Proof.
  apply (fetch_image_other_error_not_retried 7 "u?seq=7"
           (λ i, if i <? 1 then HTTPFailure 503 else OtherFailure URLError)
           (λ _, 5) 1 URLError).
  - intros code. discriminate.
  - lia.
  - intros i Hi. exists 503. destruct (Z.ltb_spec i 1); [done|lia].
  - reflexivity.
Defined.

Lemma fetch_loop_slept attempts page url net rnd :
  Forall (λ i, 0 ≤ i) attempts →
  0 ≤ slept (fetch_loop attempts page url net rnd).1
    ≤ foldr (λ i acc, (2 ^ i - 1) + acc) 0 attempts.
Proof.
  induction 1 as [|j rest Hj _ IH]; cbn [fetch_loop foldr]; [done|].
  pose proof (pow2_pos j Hj).
  destruct (net j) as [b|code|e]; [cbn; lia| |cbn; lia].
  destruct (fetch_loop rest page url net rnd) as [log r].
  pose proof (randint_bounds 0 (2 ^ j - 1) (rnd j)).
  cbn -[randint Z.pow] in *. lia.
Qed.

(** X3. Whatever the network and the random source do, one call of
    [fetch_image] sleeps between 0 and 1013 seconds in total, the sum of
    2^i - 1 over the ten attempts. *)
Theorem fetch_image_total_sleep_bound (url_info : Z * string)
    (net : Z → attempt) (rnd : Z → Z) :
  0 ≤ slept (fetch_image url_info net rnd).1 ≤ 1013
  ∧ slept (fetch_image url_info (λ _, HTTPFailure 503) (λ i, 2 ^ i - 1)).1
    = 1013.
Proof.
  split.
  - unfold fetch_image.
    pose proof (fetch_loop_slept (range 0 10) url_info.1 url_info.2 net rnd) as H.
    change (foldr _ 0 (range 0 10)) with 1013 in H. apply H.
    apply Forall_seqZ. lia.
  - by vm_compute.
Qed.

End fetcher_runs.

(** ** Filetype sniffer: what each answer means *)

Section sniffer_answers.
Import Sniffer PageStore.

Lemma sniff_table payload : sniff payload = extension (sniff_spec payload).
Proof.
  unfold sniff, determine_filetype, sigs, sniff_spec, signature_table.
  cbn [first_ext existsb first_match].
  rewrite
    (sig_matches_bytes "474946383761" [x47; x49; x46; x38; x37; x61]),
    (sig_matches_bytes "474946383961" [x47; x49; x46; x38; x39; x61]),
    (sig_matches_bytes "89504E470D0A1A0A"
       [x89; x50; x4e; x47; x0d; x0a; x1a; x0a]),
    (sig_matches_bytes "FFD8FFDB" [xff; xd8; xff; xdb]),
    (sig_matches_bytes "FFD8FFE000104A4649460001"
       [xff; xd8; xff; xe0; x00; x10; x4a; x46; x49; x46; x00; x01])
    by (done || (cbn; lia)).
  repeat (destruct (leading_bytes_match payload _); [done|]). done.
Qed.

Ltac split_payload p :=
  destruct p as [|? p]; [try done|].

(** X4. The answer of the sniffer tells exactly which magic number the
    image starts with: [.gif] means GIF87a or GIF89a, [.png] the PNG
    signature, [.jpg] FFD8FFDB or the JFIF header, and the empty
    extension none of them. No image matches the signatures of two
    types, so the order of the dictionary never decides an answer. *)
Theorem sniff_answer_iff_magic (image : bytes) :
  (sniff image = ".gif"
   ↔ take 6 image = [x47; x49; x46; x38; x37; x61]
     ∨ take 6 image = [x47; x49; x46; x38; x39; x61])
  ∧ (sniff image = ".png"
     ↔ take 8 image = [x89; x50; x4e; x47; x0d; x0a; x1a; x0a])
  ∧ (sniff image = ".jpg"
     ↔ take 4 image = [xff; xd8; xff; xdb]
       ∨ take 12 image
         = [xff; xd8; xff; xe0; x00; x10; x4a; x46; x49; x46; x00; x01])
  ∧ (sniff image = ""
     ↔ take 6 image ≠ [x47; x49; x46; x38; x37; x61]
       ∧ take 6 image ≠ [x47; x49; x46; x38; x39; x61]
       ∧ take 8 image ≠ [x89; x50; x4e; x47; x0d; x0a; x1a; x0a]
       ∧ take 4 image ≠ [xff; xd8; xff; xdb]
       ∧ take 12 image
         ≠ [xff; xd8; xff; xe0; x00; x10; x4a; x46; x49; x46; x00; x01]).
Proof.
  rewrite sniff_table. unfold sniff_spec, signature_table.
  cbn [first_match]. unfold leading_bytes_match. cbn [List.length].
  destruct (decide (take 6 image = [x47; x49; x46; x38; x37; x61])) as [E1|E1];
    [rewrite (bool_decide_true _ E1)|rewrite (bool_decide_false _ E1)];
  (destruct (decide (take 6 image = [x47; x49; x46; x38; x39; x61])) as [E2|E2];
    [rewrite ?(bool_decide_true _ E2)|rewrite ?(bool_decide_false _ E2)]);
  (destruct (decide (take 8 image = [x89; x50; x4e; x47; x0d; x0a; x1a; x0a]))
     as [E3|E3];
    [rewrite ?(bool_decide_true _ E3)|rewrite ?(bool_decide_false _ E3)]);
  (destruct (decide (take 4 image = [xff; xd8; xff; xdb])) as [E4|E4];
    [rewrite ?(bool_decide_true _ E4)|rewrite ?(bool_decide_false _ E4)]);
  (destruct (decide (take 12 image
       = [xff; xd8; xff; xe0; x00; x10; x4a; x46; x49; x46; x00; x01]))
     as [E5|E5];
    [rewrite ?(bool_decide_true _ E5)|rewrite ?(bool_decide_false _ E5)]);
  cbn [extension];
  try (destruct image as [|b0 image]; cbn in *; congruence);
  intuition congruence.
Qed.

(** X5. An image of fewer than four bytes, the empty one included, has
    no recognisable type: the sniffer answers with the empty extension. *)
Theorem sniff_short_image_unknown (image : bytes) :
  (List.length image < 4)%nat → sniff image = "".
Proof.
  intros Hlen. rewrite sniff_table. unfold sniff_spec, signature_table.
  cbn [first_match]. unfold leading_bytes_match. cbn [List.length].
  rewrite !bool_decide_false; [done|..];
    intros E; apply (f_equal List.length) in E;
    rewrite length_take in E; cbn [List.length] in E; lia.
Qed.

Lemma sniff_short_image_unknown_witness : sniff [xff; xd8; xff] = "".
Proof. apply sniff_short_image_unknown. cbn. lia. Defined.

(** X6. Whatever string it is given, hex dump or not,
    [determine_filetype] answers with one of the four extensions under
    which the coordinator stores a page. *)
Theorem determine_filetype_range (starting_bytes : string) :
  determine_filetype starting_bytes ∈ stored_extensions.
Proof.
  unfold determine_filetype, sigs, stored_extensions. cbn [first_ext].
  repeat case_match; set_solver.
Qed.

End sniffer_answers.

(** ** URL templater: tokens, distinct pages, re-templating *)

Section templater_tokens.
Import Templater.

Lemma length_str_drop n s :
  String.length (str_drop n s) = (String.length s - n)%nat.
Proof. revert s; induction n; intros [|c s]; cbn; auto. Qed.

Lemma str_take_drop n s : str_take n s +:+ str_drop n s = s.
Proof.
  revert s; induction n as [|n IH]; intros [|c s]; cbn; try done.
  by rewrite app_cons, IH.
Qed.

Lemma str_app_assoc a b c : (a +:+ b) +:+ c = a +:+ (b +:+ c).
Proof. induction a as [|x a IH]; [done|]. by rewrite !app_cons, IH. Qed.

Lemma length_str_app a b :
  String.length (a +:+ b) = (String.length a + String.length b)%nat.
Proof. induction a as [|x a IH]; [done|]. rewrite app_cons. cbn. by rewrite IH. Qed.

Lemma count_digits_le s : (count_digits s ≤ String.length s)%nat.
Proof. induction s as [|c s IH]; cbn; [done|]. destruct (is_digit c); lia. Qed.

Lemma count_digits_rest s : starts_with_digit (str_drop (count_digits s) s) = false.
Proof.
  induction s as [|c s IH]; [done|]. cbn.
  destruct (is_digit c) eqn:E; [done|]. cbn. by rewrite E.
Qed.

Lemma count_digits_0 s : starts_with_digit s = false → count_digits s = 0%nat.
Proof. destruct s as [|c s]; [done|]. cbn. by intros ->. Qed.

Lemma count_digits_app d x :
  all_digits d = true →
  count_digits (d +:+ x) = (String.length d + count_digits x)%nat.
Proof.
  induction d as [|c d IH]; [done|]. rewrite app_cons. cbn.
  intros [-> Hd]%andb_prop. by rewrite IH.
Qed.

Lemma match_at_seq rest :
  match_at SeqDigits ("seq=" +:+ rest)
  = match count_digits rest with
    | O => None
    | S k => Some (5 + k)%nat
    end.
Proof. done. Qed.

Lemma match_at_inv s n :
  match_at SeqDigits s = Some n →
  ∃ rest k, s = "seq=" +:+ rest ∧ count_digits rest = S k ∧ n = (5 + k)%nat.
Proof.
  intros H.
  destruct s as [|c1 s]; [done|].
  destruct c1 as [[] [] [] [] [] [] [] []]; try done.
  destruct s as [|c2 s]; [done|].
  destruct c2 as [[] [] [] [] [] [] [] []]; try done.
  destruct s as [|c3 s]; [done|].
  destruct c3 as [[] [] [] [] [] [] [] []]; try done.
  destruct s as [|c4 s]; [done|].
  destruct c4 as [[] [] [] [] [] [] [] []]; try done.
  exists s. change (match_at SeqDigits ("seq=" +:+ s) = Some n) in H.
  rewrite match_at_seq in H. destruct (count_digits s) as [|k]; [done|].
  exists k. by injection H as <-.
Qed.

Lemma match_at_rest s n :
  match_at SeqDigits s = Some n →
  starts_with_digit (str_drop n s) = false
  ∧ (String.length (str_drop n s) < String.length s)%nat
  ∧ (n ≤ String.length s)%nat.
Proof.
  intros (rest & k & -> & Hk & ->)%match_at_inv.
  change (str_drop (5 + k) ("seq=" +:+ rest)) with (str_drop (S k) rest).
  rewrite <- Hk. split; [apply count_digits_rest|].
  rewrite length_str_drop. pose proof (count_digits_le rest).
  change (String.length ("seq=" +:+ rest)) with (4 + String.length rest)%nat.
  lia.
Qed.

Lemma sub_match r s n :
  match_at SeqDigits s = Some n →
  sub SeqDigits r s = r +:+ sub SeqDigits r (str_drop n s).
Proof.
  intros Hm. pose proof (match_at_ge _ _ _ Hm) as Hn.
  destruct s as [|c s]; [done|]. destruct n as [|n]; [lia|].
  unfold sub. cbn [sub_go]. rewrite Hm. by rewrite sub_go_skip.
Qed.

Lemma sub_nomatch r c s :
  match_at SeqDigits (String c s) = None →
  sub SeqDigits r (String c s) = String c (sub SeqDigits r s).
Proof. intros Hm. unfold sub. cbn [sub_go]. by rewrite Hm. Qed.

Lemma sub_head_nondigit d s :
  starts_with_digit s = false →
  starts_with_digit (sub SeqDigits ("seq=" +:+ d) s) = false.
Proof.
  intros Hs. destruct s as [|c s]; [done|].
  destruct (match_at SeqDigits (String c s)) as [n|] eqn:Hm.
  - by rewrite (sub_match _ _ _ Hm).
  - by rewrite (sub_nomatch _ _ _ Hm).
Qed.

Lemma sub_cons_inv d t a Y :
  a ≠ "s"%char →
  sub SeqDigits ("seq=" +:+ d) t = String a Y →
  ∃ t', t = String a t' ∧ sub SeqDigits ("seq=" +:+ d) t' = Y.
Proof.
  intros Ha H. destruct t as [|c t]; [done|].
  destruct (match_at SeqDigits (String c t)) as [n|] eqn:Hm.
  - rewrite (sub_match _ _ _ Hm) in H. by injection H as <-.
  - rewrite (sub_nomatch _ _ _ Hm) in H. injection H as -> <-. by exists t.
Qed.

Lemma nomatch_preserved d c s :
  match_at SeqDigits (String c s) = None →
  match_at SeqDigits (String c (sub SeqDigits ("seq=" +:+ d) s)) = None.
Proof.
  intros Hm.
  destruct (match_at SeqDigits (String c (sub SeqDigits ("seq=" +:+ d) s)))
    as [n|] eqn:E; [exfalso|done].
  apply match_at_inv in E as (rest & k & E & Hk & _).
  injection E as -> E.
  apply sub_cons_inv in E as (t1 & -> & E); [|done].
  apply sub_cons_inv in E as (t2 & -> & E); [|done].
  apply sub_cons_inv in E as (t3 & -> & E); [|done].
  change (match_at SeqDigits ("seq=" +:+ t3) = None) in Hm.
  rewrite match_at_seq in Hm.
  destruct (count_digits t3) eqn:Hc; [|done].
  assert (starts_with_digit t3 = false) as Ht.
  { destruct t3 as [|x t3]; [done|]. cbn in *. by destruct (is_digit x). }
  apply (sub_head_nondigit d) in Ht. rewrite E in Ht.
  apply count_digits_0 in Ht. by rewrite Ht in Hk.
Qed.

Lemma match_at_replacement d X :
  all_digits d = true → d ≠ "" → starts_with_digit X = false →
  match_at SeqDigits (("seq=" +:+ d) +:+ X)
  = Some (String.length ("seq=" +:+ d)).
Proof.
  intros Hd Hne HX. rewrite str_app_assoc, match_at_seq.
  rewrite count_digits_app, (count_digits_0 X) by done.
  rewrite length_str_app. destruct d as [|c d]; [done|]. cbn. f_equal. lia.
Qed.

Lemma sub_sub_length n d r s :
  (String.length s ≤ n)%nat →
  all_digits d = true → d ≠ "" →
  sub SeqDigits r (sub SeqDigits ("seq=" +:+ d) s) = sub SeqDigits r s.
Proof.
  intros Hlen Hd Hne. revert s Hlen.
  induction n as [|n IH]; intros s Hlen.
  { destruct s; [done|]. cbn in Hlen. lia. }
  destruct s as [|c s]; [done|].
  destruct (match_at SeqDigits (String c s)) as [m|] eqn:Hm.
  - destruct (match_at_rest _ _ Hm) as (Hpost & Hlt & _).
    rewrite (sub_match _ _ _ Hm), (sub_match r _ _ Hm).
    rewrite (sub_match r _ _ (match_at_replacement d _ Hd Hne
               (sub_head_nondigit d _ Hpost))).
    rewrite str_drop_app. f_equal. apply IH. lia.
  - rewrite (sub_nomatch _ _ _ Hm), (sub_nomatch r _ _ Hm).
    rewrite (sub_nomatch r _ _ (nomatch_preserved d _ _ Hm)).
    f_equal. apply IH. cbn in Hlen. lia.
Qed.

Lemma has_token_first_occurrence s :
  has_token SeqDigits s = true →
  ∃ pre tok post, first_occurrence SeqDigits s pre tok post.
Proof.
  induction s as [|c s IH]; [done|]. cbn [has_token].
  destruct (match_at SeqDigits (String c s)) as [n|] eqn:Hm.
  - intros _. destruct (match_at_rest _ _ Hm) as (_ & _ & Hn).
    exists "", (str_take n (String c s)), (str_drop n (String c s)).
    unfold first_occurrence.
    rewrite app_nil_l, str_take_drop, length_str_take, Nat.min_l by done.
    split; [done|]. split; [done|]. cbn. lia.
  - intros (pre & tok & post & -> & Hm' & Hlt)%IH.
    exists (String c pre), tok, post. unfold first_occurrence.
    rewrite app_cons.
    split; [done|]. split; [done|]. intros [|k] Hk; [done|].
    apply Hlt. cbn in Hk. lia.
Qed.

Lemma digits_app_inj a b X Y :
  all_digits a = true → all_digits b = true →
  starts_with_digit X = false → starts_with_digit Y = false →
  a +:+ X = b +:+ Y → a = b.
Proof.
  revert b. induction a as [|c a IH]; intros [|c' b] Ha Hb HX HY.
  - done.
  - rewrite app_nil_l, app_cons. intros ->. cbn in *.
    apply andb_prop in Hb as [Hc _]. by rewrite Hc in HX.
  - rewrite app_nil_l, app_cons. intros <-. cbn in *.
    apply andb_prop in Ha as [Hc _]. by rewrite Hc in HY.
  - rewrite !app_cons. intros [= -> E]. cbn in *.
    apply andb_prop in Ha as [_ Ha]. apply andb_prop in Hb as [_ Hb].
    f_equal. by apply IH.
Qed.

Lemma request_url_inj base i j :
  has_token SeqDigits base = true → 0 ≤ i → 0 ≤ j →
  sub SeqDigits ("seq=" +:+ str i) base = sub SeqDigits ("seq=" +:+ str j) base →
  i = j.
Proof.
  intros (pre & tok & post & Hocc)%has_token_first_occurrence Hi Hj.
  rewrite !(sub_first_occurrence _ _ _ _ _ _ Hocc).
  intros E%(inj (String.app pre)). rewrite !str_app_assoc in E.
  apply (inj (String.app "seq=")) in E.
  destruct Hocc as (_ & Hm & _).
  apply match_at_rest in Hm as (Hpost & _). rewrite str_drop_app in Hpost.
  apply digits_app_inj in E;
    [|by apply str_all_digits|by apply str_all_digits
     |by apply sub_head_nondigit..].
  assert (Some i = Some j) as [=]; [|done].
  by rewrite <- (int_str i), <- (int_str j), E.
Qed.

(** X7. When the base URL contains the token seq=<digits>, the request
    URLs of the pages are pairwise distinct: no two pages are fetched
    from the same address. *)
Theorem request_urls_distinct (base_url : string) (npages : Z) :
  has_token SeqDigits base_url = true →
  NoDup (url_info SeqDigits "seq=" base_url npages).*2.
Proof.
  intros Htok. unfold url_info. rewrite <- list_fmap_compose.
  apply NoDup_fmap_2_strong; [|apply NoDup_seqZ].
  intros i j Hi%elem_of_seqZ Hj%elem_of_seqZ E. cbn in E.
  apply (request_url_inj base_url); [done|lia..|done].
Qed.

Lemma request_urls_distinct_witness :
  NoDup (url_info SeqDigits "seq="
           "https://babel.hathitrust.org/cgi/imgsrv/image?id=x;seq=1;size=125"
           12).*2.
Proof. apply request_urls_distinct. reflexivity. Defined.

(** X8. The request URL of any page can serve as the base URL of a run:
    templating it again gives the same work items as the base URL it
    came from, whatever page it was made for. *)
Theorem request_url_as_base_url (base_url : string) (i npages : Z)
    (site : site_value) :
  0 ≤ i →
  derive_work_items (sub SeqDigits ("seq=" +:+ str i) base_url) npages site
  = derive_work_items base_url npages site.
Proof.
  intros Hi. unfold derive_work_items.
  destruct site as [[]|s]; [|done]. cbn. f_equal. unfold url_info.
  apply list_fmap_ext. intros _ j _. f_equal.
  destruct (str_all_digits i Hi) as [Hd Hne].
  by apply (sub_sub_length (String.length base_url)).
Qed.

Lemma request_url_as_base_url_witness :
  derive_work_items
    (sub SeqDigits ("seq=" +:+ str 7) "u?seq=1;size=125;next_seq=2") 3
    (OfSite BABLE)
  = derive_work_items "u?seq=1;size=125;next_seq=2" 3 (OfSite BABLE).
Proof. apply request_url_as_base_url. lia. Defined.

End templater_tokens.

(** ** Download coordinator: runs without a failed page *)

Section coordinator_runs.
Import Templater Fetcher Coordinator PageStore Sniffer.

Lemma sniff_stored image : sniff image ∈ stored_extensions.
Proof.
  unfold sniff, determine_filetype, sigs, stored_extensions. cbn [first_ext].
  repeat case_match; set_solver.
Qed.

Lemma stored_extension_head e :
  e ∈ stored_extensions → starts_with_digit e = false.
Proof.
  unfold stored_extensions. rewrite !elem_of_cons, elem_of_nil.
  by intros [->|[->|[->|[->|[]]]]].
Qed.

Lemma page_file_name_inj i j e e' :
  0 ≤ i → 0 ≤ j → e ∈ stored_extensions → e' ∈ stored_extensions →
  page_file_name (i, e) = page_file_name (j, e') → i = j ∧ e = e'.
Proof.
  intros Hi Hj He He'. unfold page_file_name. cbn [fst snd]. intros E.
  assert (str i = str j) as Hs.
  { apply (digits_app_inj (str i) (str j) e e');
      [by apply str_all_digits|by apply str_all_digits
      |by apply stored_extension_head|by apply stored_extension_head|done]. }
  rewrite Hs in E. apply (inj (String.app (str j))) in E.
  split; [|done].
  assert (Some i = Some j) as [=]; [|done].
  by rewrite <- (int_str i), <- (int_str j), Hs.
Qed.

Lemma prefix_slash_page i e :
  0 ≤ i → String.prefix "/" (page_file_name (i, e)) = false.
Proof.
  intros Hi. unfold page_file_name. cbn [fst snd].
  destruct (str_all_digits i Hi) as [Hd Hne].
  destruct (str i) as [|c s]; [congruence|]. rewrite app_cons.
  cbn [all_digits] in Hd. apply andb_prop in Hd as [Hc _].
  cbn [String.prefix].
  destruct (ascii_dec "/" c) as [<-|]; done.
Qed.

Lemma join_inj d a b :
  String.prefix "/" a = false → String.prefix "/" b = false →
  join d a = join d b → a = b.
Proof.
  unfold join. intros -> ->.
  destruct (String.eqb d "" || ends_with_slash d).
  - by intros ?%(inj (String.app d)).
  - by intros ?%(inj (String.app d))%(inj (String.app "/")).
Qed.

(** X9. Two pages are never stored under the same path: pages that
    differ in index or in extension get different paths in the target
    directory. *)
Theorem stored_paths_distinct (directory : string) (i j : Z) (e e' : string) :
  0 ≤ i → 0 ≤ j → e ∈ stored_extensions → e' ∈ stored_extensions →
  (i, e) ≠ (j, e') →
  join directory (page_file_name (i, e)) ≠ join directory (page_file_name (j, e')).
Proof.
  intros Hi Hj He He' Hne E. apply Hne.
  assert (i = j ∧ e = e') as [-> ->]; [|done].
  apply page_file_name_inj; [done..|].
  eapply join_inj; [by apply prefix_slash_page..|done].
Qed.

Lemma stored_paths_distinct_witness :
  join "tmp" (page_file_name (1, ".png")) ≠ join "tmp" (page_file_name (10, ".png"))
  ∧ join "tmp" (page_file_name (1, ".png")) ≠ join "tmp" (page_file_name (1, "")).
Proof.
  split; apply stored_paths_distinct;
    try lia; try done; unfold stored_extensions; set_solver.
Defined.

Lemma stored_path_inj directory i j b b' :
  0 ≤ i → 0 ≤ j →
  stored_path directory (i, b) = stored_path directory (j, b') → i = j.
Proof.
  intros Hi Hj E. unfold stored_path in E. cbn [fst snd] in E.
  eapply join_inj in E; [|by apply prefix_slash_page..].
  by apply page_file_name_inj in E as [? _]; [|done|done|apply sniff_stored..].
Qed.

Lemma consume_successes directory results (pages : list (Z * bytes)) st :
  Forall2 (λ r page_image, r.2 = Returned (Some page_image)) results pages →
  ∃ st',
    consume directory results st = (st', Returned ())
    ∧ files st'
      = foldl (λ fs page_image,
                 <[stored_path directory page_image := page_image.2]> fs)
          (files st) pages.
Proof.
  intros H. revert st. induction H as [|[fetch_log r] [page image] rs ps Hr _ IH];
    intros st.
  - by exists st.
  - cbn in Hr. subst r. cbn [consume foldl].
    edestruct IH as (st' & Hc & Hf). exists st'. split; [exact Hc|].
    by rewrite Hf.
Qed.

Lemma foldl_insert_lookup (kvs : list (string * bytes)) (m : gmap string bytes) :
  NoDup kvs.*1 →
  (∀ k v, (k, v) ∈ kvs → foldl (λ fs kv, <[kv.1 := kv.2]> fs) m kvs !! k = Some v)
  ∧ (∀ k, k ∉ kvs.*1 → foldl (λ fs kv, <[kv.1 := kv.2]> fs) m kvs !! k = m !! k).
Proof.
  revert m. induction kvs as [|[k0 v0] kvs IH]; intros m Hnd.
  - split; [|done]. intros k v Hin. by apply elem_of_nil in Hin.
  - rewrite fmap_cons in Hnd. apply NoDup_cons in Hnd as [Hk0 Hnd].
    destruct (IH (<[k0 := v0]> m) Hnd) as [IH1 IH2]. cbn [foldl fst snd].
    split.
    + intros k v [[= -> ->]|Hin]%elem_of_cons; [|by apply IH1].
      by rewrite IH2, lookup_insert_eq.
    + intros k Hk. rewrite fmap_cons, not_elem_of_cons in Hk.
      destruct Hk as [Hne Hk]. by rewrite IH2, lookup_insert_ne.
Qed.

Lemma url_info_NoDup base_url npages :
  NoDup (url_info SeqDigits "seq=" base_url npages).
Proof.
  eapply NoDup_fmap_1. rewrite url_info_indices. apply NoDup_seqZ.
Qed.

Lemma url_info_elem base_url npages w :
  w ∈ url_info SeqDigits "seq=" base_url npages →
  1 ≤ w.1 ≤ npages ∧ w = (w.1, sub SeqDigits ("seq=" +:+ str w.1) base_url).
Proof.
  unfold url_info, range. intros (i & -> & Hi%elem_of_seqZ)%list_elem_of_fmap.
  cbn. split; [lia|done].
Qed.

(** X10. When the fetch of every page ends with a body, [download_images]
    returns normally, whatever the order in which the fetches complete:
    every page is then found in the target directory under its index and
    sniffed extension with exactly the bytes fetched for it, and no other
    path of the directory is touched. *)
Theorem download_images_stores_every_page (base_url : string) (npages : Z)
    (directory : string) (net : Z → Z → attempt) (rnd : Z → Z → Z)
    (completion : list (Z * string) → list (Z * string)) (st : state)
    (body : Z → bytes) :
  (∀ l, completion l ≡ₚ l) →
  (∀ i u, 1 ≤ i ≤ npages →
     (fetch_image (i, u) (net i) (rnd i)).2 = Returned (Some (i, body i))) →
  ∃ st',
    download_images base_url npages directory (OfSite BABLE)
      net rnd completion st = (st', Returned ())
    ∧ (∀ i, 1 ≤ i ≤ npages →
         files st' !! stored_path directory (i, body i) = Some (body i))
    ∧ (∀ path,
         (∀ i, 1 ≤ i ≤ npages → path ≠ stored_path directory (i, body i)) →
         files st' !! path = files st !! path).
Proof.
  intros Hperm Hfetch. unfold download_images.
  cbn [derive_work_items get_url_replacements mbind option_bind].
  set (items := url_info SeqDigits "seq=" base_url npages).
  set (pages := (λ w : Z * string, (w.1, body w.1)) <$> completion items).
  destruct (consume_successes directory
              ((λ w, fetch_image w (net w.1) (rnd w.1)) <$> completion items)
              pages st) as (st' & Hrun & Hfiles).
  { unfold pages. apply Forall2_fmap, Forall_Forall2_diag, Forall_forall.
    intros [i u] Hw. rewrite Hperm in Hw.
    apply url_info_elem in Hw as [Hi _]. cbn in *. by apply Hfetch. }
  exists st'. split; [done|]. rewrite Hfiles.
  set (kvs := (λ pb : Z * bytes, (stored_path directory pb, pb.2)) <$> pages).
  assert (foldl (λ fs pb, <[stored_path directory pb := pb.2]> fs) (files st) pages
          = foldl (λ fs kv, <[kv.1 := kv.2]> fs) (files st) kvs) as ->.
  { unfold kvs. by rewrite foldl_fmap. }
  assert (Hkeys : kvs.*1
            = (λ w : Z * string, stored_path directory (w.1, body w.1))
                <$> completion items).
  { unfold kvs, pages. by rewrite <- !list_fmap_compose. }
  assert (Hnd : NoDup kvs.*1).
  { rewrite Hkeys. apply NoDup_fmap_2_strong.
    - intros w w' Hw Hw' E. rewrite Hperm in Hw, Hw'.
      apply url_info_elem in Hw as [Hi Ew], Hw' as [Hi' Ew'].
      apply stored_path_inj in E; [|lia..]. rewrite Ew, Ew'. by rewrite E.
    - rewrite Hperm. apply url_info_NoDup. }
  destruct (foldl_insert_lookup kvs (files st) Hnd) as [Hin Hout].
  split.
  - intros i Hi. apply Hin. unfold kvs, pages.
    rewrite <- list_fmap_compose. apply list_elem_of_fmap.
    exists (i, sub SeqDigits ("seq=" +:+ str i) base_url). split; [done|].
    rewrite Hperm. unfold items, url_info, range.
    apply list_elem_of_fmap. exists i. split; [done|]. apply elem_of_seqZ. lia.
  - intros path Hpath. apply Hout. rewrite Hkeys.
    intros (w & -> & Hw)%list_elem_of_fmap. rewrite Hperm in Hw.
    apply url_info_elem in Hw as [Hi _]. by apply (Hpath w.1).
Qed.

Lemma download_images_stores_every_page_witness :
  ∃ st',
    download_images "u?seq=1" 3 "tmp" (OfSite BABLE)
      (λ _ _, Body [x89; x50; x4e; x47; x0d; x0a; x1a; x0a]) (λ _ _, 0)
      reverse (State ∅ [])
    = (st', Returned ())
    ∧ (∀ i, 1 ≤ i ≤ 3 →
         files st'
           !! stored_path "tmp" (i, [x89; x50; x4e; x47; x0d; x0a; x1a; x0a])
         = Some [x89; x50; x4e; x47; x0d; x0a; x1a; x0a])
    ∧ (∀ path,
         (∀ i, 1 ≤ i ≤ 3 →
            path ≠ stored_path "tmp" (i, [x89; x50; x4e; x47; x0d; x0a; x1a; x0a])) →
         files st' !! path = (∅ : gmap string bytes) !! path).
Proof.
  apply (download_images_stores_every_page "u?seq=1" 3 "tmp"
           (λ _ _, Body [x89; x50; x4e; x47; x0d; x0a; x1a; x0a]) (λ _ _, 0)
           reverse (State ∅ [])
           (λ _, [x89; x50; x4e; x47; x0d; x0a; x1a; x0a])).
  - intros l. apply reverse_Permutation.
  - intros i u _. reflexivity.
Defined.

Lemma StronglySorted_filter {A} (R : relation A) (P : A → Prop)
    `{∀ x, Decision (P x)} (l : list A) :
  StronglySorted R l → StronglySorted R (filter P l).
Proof.
  induction 1 as [|x l Hs IH Hx]; [constructor|].
  rewrite filter_cons. case_decide; [|done].
  constructor; [done|]. rewrite Forall_forall in Hx |- *.
  intros y [_ Hy]%list_elem_of_filter. by apply Hx.
Qed.

Lemma filter_fmap_eq {A B} (g : A → B) (P : B → Prop)
    `{∀ x, Decision (P x)} (l : list A) :
  filter P (g <$> l) = g <$> filter (λ x, P (g x)) l.
Proof.
  induction l as [|x l IH]; [done|].
  rewrite fmap_cons, !filter_cons, IH. by case_decide.
Qed.

(** X11. Reading back what a run stored: list the files that pages 1 to
    [npages] were stored as, in any order the directory gives them, and
    [find_images] returns the paths of the pages of known type in
    ascending page order, one per page, leaving out exactly the pages
    whose type the sniffer did not recognise. *)
Theorem stored_pages_read_back (directory : string) (npages : Z)
    (body : Z → bytes) (order : list Z) :
  order ≡ₚ seqZ 1 npages →
  find_images directory
    ((λ i, page_file_name (i, sniff (body i))) <$> order)
  = Returned
      ((λ i, stored_path directory (i, body i))
         <$> filter (λ i, sniff (body i) ≠ "") (seqZ 1 npages)).
Proof.
  intros Hord.
  set (g := λ i : Z, (i, sniff (body i))).
  change ((λ i, page_file_name (i, sniff (body i))) <$> order)
    with ((page_file_name ∘ g) <$> order).
  rewrite list_fmap_compose, find_images_pages.
  2:{ apply Forall_fmap, Forall_forall. intros i Hi. rewrite Hord in Hi.
      apply elem_of_seqZ in Hi. cbn. split; [lia|apply sniff_stored]. }
  f_equal.
  assert (sort_by_key (filter (λ p : Z * string, p.2 ≠ "") (g <$> order))
          = g <$> filter (λ i, sniff (body i) ≠ "") (seqZ 1 npages)) as ->.
  { apply (StronglySorted_unique_strong (λ a b : Z * string, a.1 ≤ b.1)).
    - intros x1 x2 Hx1 Hx2 H12 H21.
      rewrite sort_by_key_perm in Hx1.
      apply list_elem_of_filter in Hx1 as [_ (i & -> & _)%list_elem_of_fmap].
      apply list_elem_of_fmap in Hx2 as (j & -> & _).
      cbn in *. assert (i = j) as -> by lia. done.
    - apply sort_by_key_sorted.
    - apply (StronglySorted_fmap g Z.lt); [cbn; lia|].
      apply StronglySorted_filter, StronglySorted_seqZ.
    - rewrite sort_by_key_perm, (filter_fmap_eq g). cbn [snd g].
      by rewrite Hord. }
  by rewrite <- list_fmap_compose.
Qed.

Lemma stored_pages_read_back_witness :
  find_images "tmp"
    ((λ i, page_file_name (i, sniff (if i =? 2 then [] else [xff; xd8; xff; xdb])))
       <$> [3; 1; 2])
  = Returned
      ((λ i, stored_path "tmp" (i, if i =? 2 then [] else [xff; xd8; xff; xdb]))
         <$> filter (λ i, sniff (if i =? 2 then [] else [xff; xd8; xff; xdb]) ≠ "")
               (seqZ 1 3)).
Proof.
  apply (stored_pages_read_back "tmp" 3
           (λ i, if i =? 2 then [] else [xff; xd8; xff; xdb]) [3; 1; 2]).
  apply (bool_decide_unpack _). by vm_compute.
Defined.

End coordinator_runs.

(** ** Page store: the order among equal keys *)

Section page_store_order.
Import PageStore.

Lemma insert_by_key_filter {A} (k : Z) (x : Z * A) (l : list (Z * A)) :
  filter (λ p, p.1 = k) (insert_by_key x l) = filter (λ p, p.1 = k) (x :: l).
Proof.
  induction l as [|y l IH]; [done|]. cbn [insert_by_key].
  destruct (Z.ltb_spec y.1 x.1) as [Hlt|Hge]; [|done].
  rewrite (filter_cons _ y), IH, !filter_cons.
  repeat case_decide; try done; lia.
Qed.

Lemma sort_by_key_filter {A} (k : Z) (l : list (Z * A)) :
  filter (λ p, p.1 = k) (sort_by_key l) = filter (λ p, p.1 = k) l.
Proof.
  induction l as [|x l IH]; [done|]. cbn [sort_by_key].
  by rewrite insert_by_key_filter, !filter_cons, IH.
Qed.

Lemma keyed_filter (k : Z) (l : list (Z * string)) :
  Forall (λ p, sort_key p.2 = Some p.1) l →
  filter (λ x, sort_key x = Some k) l.*2 = (filter (λ p, p.1 = k) l).*2.
Proof.
  induction 1 as [|p l Hp _ IH]; [done|].
  rewrite fmap_cons, !filter_cons, IH, Hp.
  repeat case_decide; simplify_eq; done.
Qed.

(** X12. When [find_images] returns, its result is the stable sort of
    the kept names by their key: the keys never decrease along the
    result, and names with the same key (1.png and 1.jpg, or 1.png and
    01.png) stay in the order in which the directory listed them. *)
Theorem find_images_stable (directory : string) (listing names : list string) :
  find_images directory listing = Returned names →
  ∃ kept,
    names = join directory <$> kept
    ∧ kept ≡ₚ filter (λ x, is_image x = true) listing
    ∧ StronglySorted
        (λ a b, ∃ ka kb, sort_key a = Some ka ∧ sort_key b = Some kb ∧ ka ≤ kb)
        kept
    ∧ ∀ k, filter (λ x, sort_key x = Some k) kept
           = filter (λ x, sort_key x = Some k)
               (filter (λ x, is_image x = true) listing).
Proof.
  unfold find_images.
  destruct (mapM _ _) as [keyed|] eqn:E; intros [= <-].
  apply mapM_Some in E.
  assert (Hkeyed : Forall (λ p : Z * string, sort_key p.2 = Some p.1) keyed
                   ∧ keyed.*2 = filter (λ x, is_image x = true) listing).
  { clear -E. induction E as [|x [k y] l keyed Hx _ [IH1 IH2]]; [done|].
    destruct (sort_key x) as [k'|] eqn:Hk; simplify_eq/=.
    split; [by constructor|by f_equal]. }
  destruct Hkeyed as [Hkeys Hnames].
  assert (Hsorted : Forall (λ p : Z * string, sort_key p.2 = Some p.1)
                      (sort_by_key keyed)).
  { rewrite Forall_forall in Hkeys |- *. intros p Hp.
    rewrite sort_by_key_perm in Hp. by apply Hkeys. }
  exists (sort_by_key keyed).*2. split; [done|]. split; [|split].
  - by rewrite sort_by_key_perm, Hnames.
  - pose proof (sort_by_key_sorted keyed) as Hs.
    induction Hs as [|p l Hl IH Hp]; [constructor|].
    apply Forall_cons in Hsorted as [Hk Hsorted].
    rewrite fmap_cons. constructor; [by apply IH|].
    rewrite Forall_fmap, Forall_forall. intros q Hq. cbn.
    rewrite Forall_forall in Hp, Hsorted.
    exists p.1, q.1. split; [done|]. split; [by apply Hsorted|by apply Hp].
  - intros k. rewrite <- Hnames, !keyed_filter by done.
    by rewrite sort_by_key_filter.
Qed.

Lemma find_images_stable_witness :
  ∃ kept,
    ["tmp/1.png"; "tmp/01.jpg"; "tmp/2.gif"] = join "tmp" <$> kept
    ∧ kept ≡ₚ filter (λ x, is_image x = true) ["2.gif"; "1.png"; "x.txt"; "01.jpg"]
    ∧ StronglySorted
        (λ a b, ∃ ka kb, sort_key a = Some ka ∧ sort_key b = Some kb ∧ ka ≤ kb)
        kept
    ∧ ∀ k, filter (λ x, sort_key x = Some k) kept
           = filter (λ x, sort_key x = Some k)
               (filter (λ x, is_image x = true)
                  ["2.gif"; "1.png"; "x.txt"; "01.jpg"]).
Proof.
  apply (find_images_stable "tmp" ["2.gif"; "1.png"; "x.txt"; "01.jpg"]).
  reflexivity.
Defined.

End page_store_order.

(** ** Download coordinator: what a run can touch *)

Section coordinator_frame.
Import Templater Fetcher Coordinator PageStore Sniffer Main.


Lemma fetch_loop_clean attempts page url net rnd :
  Forall (λ e, is_assembly e = false ∧ changes_images e = false)
    (fetch_loop attempts page url net rnd).1.
Proof.
  induction attempts as [|j rest IH]; cbn [fetch_loop]; [constructor|].
  destruct (net j) as [b'|code|e]; cbn; [by repeat constructor| |by repeat constructor].
  destruct (fetch_loop rest page url net rnd). cbn in *. by repeat constructor.
Qed.


Lemma consume_log directory results st :
  Forall (λ r, Forall (λ e, is_assembly e = false) r.1) results →
  ∃ added,
    log (consume directory results st).1 = log st ++ added
    ∧ Forall (λ e, is_assembly e = false) added.
Proof.
  intros H. revert st. induction H as [|[fetch_log r] results Hr _ IH]; intros st.
  - exists []. by rewrite List.app_nil_r.
  - cbn [consume]. cbn in Hr.
    destruct r as [[[p image]|]|e]; [|by exists fetch_log..].
    edestruct IH as (added & -> & Hadded). cbn [log].
    eexists. rewrite <- !List.app_assoc. split; [done|].
    rewrite !Forall_app.
    repeat split; try done; try case_match; by repeat constructor.
Qed.



End coordinator_frame.

(** ** The command-line driver: runs with and without download *)

Section driver_runs.
Import Templater Fetcher Coordinator PageStore Main.

Lemma resolve_arguments_world E args w w1 r :
  resolve_arguments E args w = (w1, r) →
  img_files w1 = img_files w ∧ pdf_dir w1 = pdf_dir w.
Proof.
  unfold resolve_arguments, emit. repeat case_match; by intros [= <- <-].
Qed.

Lemma download_images_log base_url npages directory site net rnd completion st :
  ∃ added,
    log (download_images base_url npages directory site
           net rnd completion st).1 = log st ++ added
    ∧ Forall (λ e, is_assembly e = false) added.
Proof.
  unfold download_images. destruct (derive_work_items _ _ _) as [items|].
  - apply consume_log. apply Forall_fmap, Forall_forall. intros w _. cbn.
    eapply Forall_impl; [apply fetch_loop_clean|]. by intros e [? _].
  - exists []. by rewrite List.app_nil_r.
Qed.

(** X14. A run without download ([-d]) calls neither [urlopen] nor
    [rmtree] nor the download loop's [open]: once the arguments are
    settled, all it does is create the PDF directory, print, hand the
    images to [img2pdf] for the file [<title> - <author>.pdf] joined to
    the PDF directory, and call [ocrmypdf]. Where that joined path leads
    is decided by the title and the author. *)
Theorem main_without_download_makes_no_request (E : env)
    (args args' : Namespace) (w w1 : world) :
  resolve_arguments E args w = (w1, Some args') →
  download args' = false →
  ∃ w' r added,
    main E args w = (w', r)
    ∧ out w' = out w1 ++ added
    ∧ Forall (λ e, e = Mkdir (join (here E) "pdf")
                   ∨ (∃ msg, e = Print msg)
                   ∨ (∃ image_files,
                        e = Img2pdf image_files
                              (join (join (here E) "pdf")
                                 (title args' +:+ " - " +:+ author args'
                                  +:+ ".pdf")))
                   ∨ (∃ input_file output_file,
                        e = Ocrmypdf input_file output_file)) added.
Proof.
  intros Hres Hdl. unfold main. rewrite Hres, Hdl.
  unfold after_download, make_pdf, ocr_pdf, emit.
  destruct (pdf args'), (pdf_dir w1), (img_files w1) as [fs|] eqn:Hf, (ocr args');
    cbn [img_files pdf_dir out];
    try destruct (find_images _ _);
    cbn [img_files pdf_dir out];
    eexists _, _, _; (split; [reflexivity|]);
    rewrite <- ?List.app_assoc;
    (split; [first [reflexivity | symmetry; apply List.app_nil_r]|]);
    repeat (apply Forall_cons; split; [eauto 7|]); apply Forall_nil_2.
Qed.

Lemma main_without_download_makes_no_request_witness :
  let E := {| here := "/home/user";
              interactive_parsing := λ _ args, args;
              net := λ _ _, HTTPFailure 404;
              rnd := λ _ _, 0;
              completion := id;
              listdir := λ fs, ["2.png"; "1.png"] |} in
  let args := {| url := ""; pages := 0; author := "a"; title := "t";
                 download := false; pdf := true; ocr := true;
                 interactive := false |} in
  let w := World (Some {[ "/home/user/tmp/1.png" := [x89];
                          "/home/user/tmp/2.png" := [x89] ]}) false [] in
  ∃ w' r added,
    main E args w = (w', r)
    ∧ out w' = out w ++ added
    ∧ Forall (λ e, e = Mkdir (join (here E) "pdf")
                   ∨ (∃ msg, e = Print msg)
                   ∨ (∃ image_files,
                        e = Img2pdf image_files
                              (join (join (here E) "pdf")
                                 (title args +:+ " - " +:+ author args
                                  +:+ ".pdf")))
                   ∨ (∃ input_file output_file,
                        e = Ocrmypdf input_file output_file)) added.
Proof.
  intros E args w.
  apply (main_without_download_makes_no_request E args args w w); reflexivity.
Defined.

(** X15. Asking for the PDF without download when no image directory
    exists ends in [FileNotFoundError]; the PDF directory has been
    created by then, and neither the PDF nor the OCR step has run. *)
Theorem main_pdf_without_image_directory (E : env) (args args' : Namespace)
    (w w1 : world) :
  resolve_arguments E args w = (w1, Some args') →
  download args' = false → pdf args' = true → img_files w = None →
  ∃ w',
    main E args w = (w', Raised FileNotFoundError)
    ∧ pdf_dir w' = true
    ∧ img_files w' = None
    ∧ ∃ added, out w' = out w1 ++ added ∧ Forall (λ e, is_assembly e = false) added.
Proof.
  intros Hres Hdl Hpdf Himg.
  destruct (resolve_arguments_world _ _ _ _ _ Hres) as [Himg1 _].
  rewrite Himg in Himg1.
  unfold main. rewrite Hres, Hdl. unfold after_download, make_pdf. rewrite Hpdf.
  destruct (pdf_dir w1) eqn:Hdir; cbn [img_files]; rewrite Himg1;
    eexists; (split; [reflexivity|]); cbn [pdf_dir img_files out];
    (split; [done|]); (split; [done|]).
  - exists []. by rewrite List.app_nil_r.
  - eexists. split; [done|]. by repeat constructor.
Qed.

Lemma main_pdf_without_image_directory_witness :
  let E := {| here := "/home/user";
              interactive_parsing := λ _ args, args;
              net := λ _ _, HTTPFailure 404;
              rnd := λ _ _, 0;
              completion := id;
              listdir := λ fs, (map_to_list fs).*1 |} in
  let args := {| url := ""; pages := 0; author := "a"; title := "t";
                 download := false; pdf := true; ocr := true;
                 interactive := false |} in
  ∃ w',
    main E args (World None false []) = (w', Raised FileNotFoundError)
    ∧ pdf_dir w' = true
    ∧ img_files w' = None
    ∧ ∃ added, out w' = [] ++ added ∧ Forall (λ e, is_assembly e = false) added.
Proof.
  intros E args.
  apply (main_pdf_without_image_directory E args args
           (World None false []) (World None false [])); reflexivity.
Defined.

(** X16. One page whose ten attempts all meet an HTTP error costs the
    whole run: [main] ends in an exception and neither the PDF nor the
    OCR step is reached, whatever the other pages and the completion
    order are. *)
Theorem main_fails_on_terminal_page (E : env) (args args' : Namespace)
    (w w1 : world) (page : Z) :
  resolve_arguments E args w = (w1, Some args') →
  download args' = true →
  contains "babel.hathitrust.org" (url args') = true →
  1 ≤ page ≤ pages args' →
  (∀ i, 0 ≤ i < 10 → ∃ code, net E page i = HTTPFailure code) →
  (∀ l, completion E l ≡ₚ l) →
  ∃ w' e added,
    main E args w = (w', Raised e)
    ∧ out w' = out w1 ++ added
    ∧ Forall (λ e, is_assembly e = false) added.
Proof.
  intros Hres Hdl Hurl Hpage Hfail Hperm.
  unfold main. rewrite Hres, Hdl. unfold download_step. rewrite Hurl.
  destruct (img_files w1); cbn [emit out pdf_dir img_files];
    match goal with
    | |- context [download_images ?a ?b ?c ?d ?n ?r ?o ?st] =>
        destruct (download_images_terminal_failure a b c n r o st page
                    Hpage Hfail Hperm) as (st' & e & Hrun);
        destruct (download_images_log a b c d n r o st) as (added & Hlog & Hclean);
        rewrite Hrun in Hlog |- *
    end;
    cbn [fst log] in Hlog; eexists _, e, _; (split; [reflexivity|]);
    cbn [out]; rewrite Hlog, <- ?List.app_assoc;
    (split; [reflexivity|]); rewrite ?Forall_app; repeat split;
    try done; by repeat constructor.
Qed.

Lemma main_fails_on_terminal_page_witness :
  let E := {| here := "/home/user";
              interactive_parsing := λ _ args, args;
              net := λ p _, if p =? 2 then HTTPFailure 503
                            else Body [xff; xd8; xff; xdb];
              rnd := λ _ _, 0;
              completion := reverse;
              listdir := λ fs, (map_to_list fs).*1 |} in
  let args := {| url := "https://babel.hathitrust.org/cgi/imgsrv/image?id=x;seq=1";
                 pages := 3; author := "a"; title := "t";
                 download := true; pdf := true; ocr := true;
                 interactive := false |} in
  ∃ w' e added,
    main E args (World None false []) = (w', Raised e)
    ∧ out w' = [] ++ added
    ∧ Forall (λ e, is_assembly e = false) added.
Proof.
  intros E args.
  apply (main_fails_on_terminal_page E args args
           (World None false []) (World None false []) 2);
    try reflexivity.
  - cbn. lia.
  - intros i _. by exists 503.
  - intros l. apply reverse_Permutation.
Defined.

End driver_runs.

(** ** Interactive prompting *)

Section prompting.
Import Main Prompting.

Lemma lower_nil s : lower s = "" ↔ s = "".
Proof. by destruct s. Qed.

Lemma reparse_bool_lower current s s' :
  lower s = lower s' → reparse_bool current s = reparse_bool current s'.
Proof.
  intros E. unfold reparse_bool. rewrite E.
  destruct s, s'; try done.
Qed.

(** X17. Pressing Enter at every prompt changes nothing: the arguments
    come back as they were, after the seven prompts for url, pages,
    author, title, download, pdf and ocr; the interactive flag itself is
    never asked for. *)
Theorem interactive_parsing_blank_answers (args : Namespace)
    (input : string → string) :
  (∀ name, name ∈ ["url"; "pages"; "author"; "title"; "download"; "pdf"; "ocr"] →
     input name = "") →
  interactive_parsing args input
  = (["url"; "pages"; "author"; "title"; "download"; "pdf"; "ocr"],
     Returned args).
Proof.
  intros Hblank. unfold interactive_parsing.
  rewrite !Hblank by set_solver. by destruct args.
Qed.

Lemma interactive_parsing_blank_answers_witness :
  interactive_parsing
    {| url := "u?seq=1"; pages := 60; author := "a"; title := "t";
       download := true; pdf := false; ocr := false; interactive := true |}
    (λ _, "")
  = (["url"; "pages"; "author"; "title"; "download"; "pdf"; "ocr"],
     Returned
       {| url := "u?seq=1"; pages := 60; author := "a"; title := "t";
          download := true; pdf := false; ocr := false; interactive := true |}).
Proof. apply interactive_parsing_blank_answers. intros name _. reflexivity. Defined.

(** X18. The answers to the three flag prompts are read without regard to
    letter case: two sets of answers that agree on the other prompts and
    agree on the flags up to case give the same result. *)
Theorem interactive_parsing_flags_ignore_case (args : Namespace)
    (input input' : string → string) :
  (∀ name, name ∈ ["url"; "pages"; "author"; "title"] →
     input' name = input name) →
  (∀ name, name ∈ ["download"; "pdf"; "ocr"] →
     lower (input' name) = lower (input name)) →
  interactive_parsing args input' = interactive_parsing args input.
Proof.
  intros Hsame Hcase. unfold interactive_parsing.
  rewrite !Hsame by set_solver.
  rewrite (reparse_bool_lower _ (input' "download") (input "download")),
    (reparse_bool_lower _ (input' "pdf") (input "pdf")),
    (reparse_bool_lower _ (input' "ocr") (input "ocr"))
    by (apply Hcase; set_solver).
  done.
Qed.

Lemma interactive_parsing_flags_ignore_case_witness :
  interactive_parsing
    {| url := ""; pages := 0; author := ""; title := "";
       download := true; pdf := false; ocr := false; interactive := true |}
    (λ name, if String.eqb name "pdf" then "TRUE"
             else if String.eqb name "ocr" then "T" else "")
  = interactive_parsing
      {| url := ""; pages := 0; author := ""; title := "";
         download := true; pdf := false; ocr := false; interactive := true |}
      (λ name, if String.eqb name "pdf" then "true"
               else if String.eqb name "ocr" then "t" else "").
Proof.
  apply interactive_parsing_flags_ignore_case.
  - intros name Hin. rewrite !elem_of_cons, elem_of_nil in Hin.
    by destruct Hin as [->|[->|[->|[->|[]]]]].
  - intros name Hin. rewrite !elem_of_cons, elem_of_nil in Hin.
    by destruct Hin as [->|[->|[->|[]]]].
Defined.



End prompting.

(** ** Edge cases and naming *)

Section edges.
Import Templater Fetcher Coordinator PageStore Sniffer.

(** X20. A page count of zero or less is an empty batch: no request is
    made, nothing is written or logged, and [download_images] returns. *)
Theorem download_images_no_pages (base_url : string) (npages : Z)
    (directory : string) (net : Z → Z → attempt) (rnd : Z → Z → Z)
    (completion : list (Z * string) → list (Z * string)) (st : state) :
  npages ≤ 0 →
  (∀ l, completion l ≡ₚ l) →
  download_images base_url npages directory (OfSite BABLE)
    net rnd completion st = (st, Returned ()).
Proof.
  intros Hn Hperm. unfold download_images, derive_work_items, url_info, range.
  cbn [get_url_replacements mbind option_bind].
  rewrite seqZ_nil by lia. cbn [fmap list_fmap].
  by rewrite (proj1 (Permutation_nil_r _) (Hperm [])).
Qed.

Lemma download_images_no_pages_witness :
  download_images "u?seq=1" (-3) "tmp" (OfSite BABLE)
    (λ _ _, HTTPFailure 503) (λ _ _, 0) reverse (State ∅ [])
  = (State ∅ [], Returned ()).
Proof.
  apply download_images_no_pages; [lia|]. intros l. apply reverse_Permutation.
Defined.

(** X21. The file name of a stored page gives the page back: the page
    store reads the index [n] off the name the coordinator built for page
    [n], and keeps the file exactly when its extension is not the empty
    one of an unknown type. *)
Theorem page_file_name_read_back (n : Z) (ext : string) :
  0 ≤ n → ext ∈ stored_extensions →
  sort_key (page_file_name (n, ext)) = Some n
  ∧ (is_image (page_file_name (n, ext)) = true ↔ ext ≠ "").
Proof.
  intros Hn Hext. split; [by apply (sort_key_page (n, ext))|].
  rewrite (is_image_page (n, ext)) by done. apply bool_decide_eq_true.
Qed.

Lemma page_file_name_read_back_witness :
  sort_key (page_file_name (10, ".gif")) = Some 10
  ∧ (is_image (page_file_name (10, ".gif")) = true ↔ ".gif" ≠ "").
Proof.
  apply page_file_name_read_back; [lia|]. unfold stored_extensions. set_solver.
Defined.

(** X22. Twelve bytes decide the type: two images that agree on their
    first twelve bytes get the same extension, so the four further bytes
    that [download_images] passes on never matter. *)
Theorem sniff_first_twelve_bytes (image image' : bytes) :
  take 12 image = take 12 image' → sniff image = sniff image'.
Proof.
  intros E. rewrite !sniff_table. unfold sniff_spec, signature_table.
  cbn [first_match]. unfold leading_bytes_match. cbn [List.length].
  assert (∀ k, (k ≤ 12)%nat → take k image = take k image') as Hk.
  { intros k Hk. rewrite <- (Nat.min_l k 12), <- !take_take by done.
    by rewrite E. }
  by rewrite !Hk by lia.
Qed.

Lemma sniff_first_twelve_bytes_witness :
  sniff [xff; xd8; xff; xe0; x00; x10; x4a; x46; x49; x46; x00; x01; x01; x02]
  = sniff [xff; xd8; xff; xe0; x00; x10; x4a; x46; x49; x46; x00; x01; xff].
Proof. apply sniff_first_twelve_bytes. reflexivity. Defined.

End edges.
